(** * Substitution-only fuzzy search (fuzzysearch/susbstitutions_only.py)

    A shallow embedding of the substitution-only matchers of fuzzysearch:
    the dispatcher [find_near_matches_substitutions], the ring-counter
    matcher [find_near_matches_substitutions_linear_programming], the
    n-gram partition matcher [_find_near_matches_substitutions_ngrams] with
    its deduplicating/sorting wrapper and the existence probe.

    Sequences are lists over an element type with decidable equality.
    Python integers that may be negative (the budget, the distance, the
    fragment length) are [Z]; indices that the code only ever computes as
    non-negative are [nat].  Exceptions are an error type threaded through a
    small result monad. *)

From Stdlib Require Import List Arith Lia ZArith Bool Permutation Sorted.
Import ListNotations.

(** ** Exceptions and the result monad *)

(** The exceptions the code can raise.  The three [ValueError]s carry the
    spec's names for their messages. *)
Inductive py_error :=
| EmptySubsequence        (* ValueError('Given subsequence is empty!') *)
| NegativeBudget          (* ValueError('Maximum number of substitutions must be >= 0!') *)
| BudgetExceedsLength     (* ValueError("The subsequence's length must be greater than max_substitutions!") *)
| ZeroDivisionError
| IndexError.

Inductive result (T : Type) :=
| Ok (x : T)
| Err (e : py_error).
Arguments Ok {T} x.
Arguments Err {T} e.

Definition bind {T U : Type} (m : result T) (k : T -> result U) : result U :=
  match m with
  | Ok x => k x
  | Err e => Err e
  end.

Notation "x <- m ;; k" := (bind m (fun x => k))
  (at level 61, m at next level, right associativity).

(** A [for] loop whose body may raise. *)
Fixpoint fold_m {T U : Type} (f : U -> T -> result U) (xs : list T) (acc : U)
  : result U :=
  match xs with
  | [] => Ok acc
  | x :: xs' => acc' <- f acc x ;; fold_m f xs' acc'
  end.

(** ** Matches *)

(** [fuzzysearch.common.Match]: a plain record with no validation. *)
Record Match := mkMatch { start : nat; end_ : nat; dist : Z }.

(** ** Python helpers *)

(** [enumerate(xs)], starting from index [k]. *)
Fixpoint enumerate_from {A : Type} (k : nat) (xs : list A) : list (nat * A) :=
  match xs with
  | [] => []
  | x :: xs' => (k, x) :: enumerate_from (S k) xs'
  end.

Definition enumerate {A : Type} (xs : list A) := enumerate_from 0 xs.

(** [xs[a:b]] for non-negative [a] and [b] (Python clamps at the length). *)
Definition slice {A : Type} (xs : list A) (a b : nat) : list A :=
  firstn (b - a) (skipn a xs).

(** [range(start, stop, step)] for a non-zero step. *)
Definition py_range (start stop step : Z) : list Z :=
  let n := (if (0 <? step)%Z then (stop - start + step - 1) / step
            else (start - stop - step - 1) / (- step))%Z in
  map (fun k => (start + step * Z.of_nat k)%Z) (seq 0 (Z.to_nat n)).

(** A [collections.deque] of counters, indexed like a Python list;
    out-of-range indexing raises [IndexError]. *)
Fixpoint deque_get (d : list nat) (i : nat) : result nat :=
  match d, i with
  | [], _ => Err IndexError
  | x :: _, O => Ok x
  | _ :: d', S i' => deque_get d' i'
  end.

Fixpoint deque_set (d : list nat) (i : nat) (v : nat) : result (list nat) :=
  match d, i with
  | [], _ => Err IndexError
  | _ :: d', O => Ok (v :: d')
  | x :: d', S i' => r <- deque_set d' i' v ;; Ok (x :: r)
  end.

(** [d[i] += 1] *)
Definition deque_incr (d : list nat) (i : nat) : result (list nat) :=
  x <- deque_get d i ;; deque_set d i (x + 1).

(** [d.appendleft(x)] on a deque with [maxlen]: the rightmost item falls off
    when the deque is full. *)
Definition deque_appendleft (maxlen : nat) (x : nat) (d : list nat) : list nat :=
  firstn maxlen (x :: d).

(** [d.rotate(1)]: the rightmost item moves to the front. *)
Definition deque_rotate1 (d : list nat) : list nat :=
  match d with
  | [] => []
  | _ => last d 0 :: removelast d
  end.

Section Substitutions.

Variable A : Type.
Variable eq_dec : forall x y : A, {x = y} + {x <> y}.

Definition list_eqb (xs ys : list A) : bool :=
  if list_eq_dec eq_dec xs ys then true else false.

(** [sum((a != b) for (a, b) in zip(xs, ys))] *)
Fixpoint mismatches (xs ys : list A) : nat :=
  match xs, ys with
  | x :: xs', y :: ys' => (if eq_dec x y then 0 else 1) + mismatches xs' ys'
  | _, _ => 0
  end.

(** ** The exact-search primitive *)

(** Modelled from the spec: [search_exact] of [fuzzysearch.common] is not
    part of this file of the repository.  Following the spec (section 6), it
    returns, in increasing order, every index [i] with
    [start_index <= i], [i + len(fragment) <= end_index] and
    [sequence[i:i+len(fragment)] == fragment]. *)
Definition search_exact (fragment sequence : list A) (start_index : nat)
    (end_index : Z) : list nat :=
  filter (fun i => (Z.of_nat (i + length fragment) <=? end_index)%Z
                   && list_eqb (slice sequence i (i + length fragment)) fragment)
         (seq start_index (length sequence - start_index)).

(** ** Ring-counter matcher *)

(** [char_indexes_in_subsequence]: the [defaultdict(list)] built by
    appending each index to the list of its element. *)
Definition char_indexes (subsequence : list A) : A -> list nat :=
  fold_left (fun (m : A -> list nat) (ic : nat * A) =>
               let (index, char) := ic in
               fun x => if eq_dec x char then m x ++ [index] else m x)
            (enumerate subsequence) (fun _ => []).

Fixpoint incr_all (idxs : list nat) (d : list nat) : result (list nat) :=
  match idxs with
  | [] => Ok d
  | j :: idxs' => d' <- deque_incr d j ;; incr_all idxs' d'
  end.

(** One iteration of the first loop (the first [N-1] items). *)
Definition lp_warmup_step (subseq_len : nat) (ci : A -> list nat)
    (candidates : list nat) (ic : nat * A) : result (list nat) :=
  let (index, char) := ic in
  c <- incr_all (filter (fun idx => idx <=? index) (ci char)) candidates ;;
  Ok (deque_appendleft subseq_len 0 c).

(** One iteration of the second loop; the generator's output so far is
    accumulated next to the deque. *)
Definition lp_steady_step (subseq_len : nat) (ci : A -> list nat)
    (max_substitutions : Z) (st : list nat * list Match) (ic : nat * A)
  : result (list nat * list Match) :=
  let (candidates, out) := st in
  let (index, char) := ic in
  c1 <- incr_all (ci char) candidates ;;
  let c2 := deque_rotate1 c1 in
  c0 <- deque_get c2 0 ;;
  let n_substitutions := (Z.of_nat subseq_len - Z.of_nat c0)%Z in
  c3 <- deque_set c2 0 0 ;;
  if (n_substitutions <=? max_substitutions)%Z
  then Ok (c3, out ++ [mkMatch (index - (subseq_len - 1)) (index + 1)
                               n_substitutions])
  else Ok (c3, out).

Definition find_near_matches_substitutions_linear_programming
    (subsequence sequence : list A) (max_substitutions : Z)
  : result (list Match) :=
  match subsequence with
  | [] => Err EmptySubsequence
  | _ =>
    let subseq_len := length subsequence in
    let ci := char_indexes subsequence in
    let sequence_enum := enumerate sequence in
    candidates <- fold_m (lp_warmup_step subseq_len ci)
                         (firstn (subseq_len - 1) sequence_enum)
                         (firstn subseq_len [0]) ;;
    st <- fold_m (lp_steady_step subseq_len ci max_substitutions)
                 (skipn (subseq_len - 1) sequence_enum) (candidates, []) ;;
    Ok (snd st)
  end.

(** ** N-gram partition matcher *)

(** [ngram_len = subseq_len // (max_substitutions + 1)]: Python's floor
    division, which raises on a zero divisor. *)
Definition ngram_length (subseq_len : nat) (max_substitutions : Z) : result Z :=
  if (max_substitutions + 1 =? 0)%Z then Err ZeroDivisionError
  else Ok (Z.of_nat subseq_len / (max_substitutions + 1))%Z.

(** The body of the inner [for index in search_exact(...)] loop: [None] is a
    [continue], [Some m] a [yield m]. *)
Definition ngram_hit (subsequence sequence : list A) (max_substitutions : Z)
    (ngram_start ngram_len index : nat) : option Match :=
  let subseq_len := length subsequence in
  let ngram_end := ngram_start + ngram_len in
  let subseq_before := firstn ngram_start subsequence in
  let subseq_after := skipn ngram_end subsequence in
  let seq_before := slice sequence (index - ngram_start) index in
  let n1 := if list_eqb subseq_before seq_before then 0%Z
            else Z.of_nat (mismatches seq_before subseq_before) in
  if (negb (list_eqb subseq_before seq_before))
     && (max_substitutions <? n1)%Z then None
  else
  let seq_after := slice sequence (index + ngram_len)
                         (index - ngram_start + subseq_len) in
  if list_eqb subseq_after seq_after then
    Some (mkMatch (index - ngram_start) (index - ngram_start + subseq_len) n1)
  else if (n1 =? max_substitutions)%Z then None
  else
  let n2 := (n1 + Z.of_nat (mismatches seq_after subseq_after))%Z in
  if (max_substitutions <? n2)%Z then None
  else Some (mkMatch (index - ngram_start) (index - ngram_start + subseq_len) n2).

Fixpoint keep_some {T : Type} (xs : list (option T)) : list T :=
  match xs with
  | [] => []
  | Some x :: xs' => x :: keep_some xs'
  | None :: xs' => keep_some xs'
  end.

(** The fragment starts [range(0, len(subsequence) - ngram_len + 1, ngram_len)]. *)
Definition ngram_starts (subseq_len : nat) (ngram_len : Z) : list Z :=
  py_range 0 (Z.of_nat subseq_len - ngram_len + 1) ngram_len.

(** The hits of one fragment and what the inner loop yields for them
    ([ngram_start] and [ngram_len] are non-negative there). *)
Definition ngram_fragment_matches (subsequence sequence : list A)
    (max_substitutions : Z) (ngram_len : nat) (ngram_start : nat) : list Match :=
  let subseq_len := length subsequence in
  let seq_len := length sequence in
  let ngram_end := ngram_start + ngram_len in
  keep_some (map (ngram_hit subsequence sequence max_substitutions
                            ngram_start ngram_len)
                 (search_exact (slice subsequence ngram_start ngram_end)
                               sequence ngram_start
                               (Z.of_nat seq_len
                                - (Z.of_nat subseq_len - Z.of_nat ngram_end))%Z)).

(** [_find_near_matches_substitutions_ngrams], its yields collected in
    order. *)
Definition find_near_matches_substitutions_ngrams_raw
    (subsequence sequence : list A) (max_substitutions : Z)
  : result (list Match) :=
  let subseq_len := length subsequence in
  ngram_len <- ngram_length subseq_len max_substitutions ;;
  if (ngram_len =? 0)%Z then Err BudgetExceedsLength
  else Ok (flat_map (fun ngram_start =>
             ngram_fragment_matches subsequence sequence max_substitutions
                                    (Z.to_nat ngram_len) (Z.to_nat ngram_start))
             (ngram_starts subseq_len ngram_len)).

End Substitutions.

(** ** Deduplication and sorting *)

(** The loop over the raw matches keeping the first match of each start;
    [match_starts] is the Python set of starts already seen. *)
Definition dedup_step (st : list nat * list Match) (m : Match)
  : list nat * list Match :=
  let (match_starts, matches) := st in
  if existsb (Nat.eqb (start m)) match_starts then (match_starts, matches)
  else (start m :: match_starts, matches ++ [m]).

Definition dedup_by_start (ms : list Match) : list Match :=
  snd (fold_left dedup_step ms ([], [])).

(** [sorted(matches, key=lambda match: match.start)], a stable sort: an
    insertion sort that places an element before later ones with an equal
    key. *)
Fixpoint insert_by_start (m : Match) (ms : list Match) : list Match :=
  match ms with
  | [] => [m]
  | x :: ms' => if start m <=? start x then m :: x :: ms'
                else x :: insert_by_start m ms'
  end.

Fixpoint sort_by_start (ms : list Match) : list Match :=
  match ms with
  | [] => []
  | m :: ms' => insert_by_start m (sort_by_start ms')
  end.

Section Entry.

Variable A : Type.
Variable eq_dec : forall x y : A, {x = y} + {x <> y}.

Definition find_near_matches_substitutions_ngrams
    (subsequence sequence : list A) (max_substitutions : Z)
  : result (list Match) :=
  raw <- find_near_matches_substitutions_ngrams_raw A eq_dec
           subsequence sequence max_substitutions ;;
  Ok (sort_by_start (dedup_by_start raw)).

(** Returns [True] at the first yielded match, [False] when the generator
    is exhausted. *)
Definition has_near_match_substitutions_ngrams
    (subsequence sequence : list A) (max_substitutions : Z) : result bool :=
  raw <- find_near_matches_substitutions_ngrams_raw A eq_dec
           subsequence sequence max_substitutions ;;
  match raw with
  | [] => Ok false
  | _ :: _ => Ok true
  end.

(** The dispatcher. *)
Definition find_near_matches_substitutions
    (subsequence sequence : list A) (max_substitutions : Z)
  : result (list Match) :=
  match subsequence with
  | [] => Err EmptySubsequence
  | _ =>
    if (max_substitutions <? 0)%Z then Err NegativeBudget
    else if (max_substitutions =? 0)%Z then
      Ok (map (fun start_index =>
                 mkMatch start_index (start_index + length subsequence) 0)
              (search_exact A eq_dec subsequence sequence 0
                            (Z.of_nat (length sequence))))
    else if (3 <=? Z.of_nat (length subsequence) / (max_substitutions + 1))%Z
    then find_near_matches_substitutions_ngrams subsequence sequence
           max_substitutions
    else find_near_matches_substitutions_linear_programming A eq_dec
           subsequence sequence max_substitutions
  end.

End Entry.


Arguments list_eqb {A} eq_dec.
Arguments mismatches {A} eq_dec.
Arguments search_exact {A} eq_dec.
Arguments char_indexes {A} eq_dec.
Arguments incr_all : clear implicits.
Arguments lp_warmup_step {A} subseq_len ci candidates ic.
Arguments lp_steady_step {A} subseq_len ci max_substitutions st ic.
Arguments find_near_matches_substitutions_linear_programming {A} eq_dec.
Arguments ngram_hit {A} eq_dec.
Arguments ngram_fragment_matches {A} eq_dec.
Arguments find_near_matches_substitutions_ngrams_raw {A} eq_dec.
Arguments find_near_matches_substitutions_ngrams {A} eq_dec.
Arguments has_near_match_substitutions_ngrams {A} eq_dec.
Arguments find_near_matches_substitutions {A} eq_dec.

(** ** The brute-force reference and proof devices *)

Definition count_true {T : Type} (f : T -> bool) (l : list T) : nat :=
  length (filter f l).

Section Reference.

Variable A : Type.
Variable eq_dec : forall x y : A, {x = y} + {x <> y}.

(** [sequence[i:i+len]] *)
Definition window (sequence : list A) (i len : nat) : list A :=
  slice sequence i (i + len).

(** The brute-force O(N.L) reference: the window starts
    [0 <= i <= len(T) - len(S)] whose mismatch count is within the budget. *)
Definition valid_starts (subsequence sequence : list A) (max_substitutions : Z)
  : list nat :=
  filter (fun i => Z.of_nat (mismatches eq_dec subsequence
                               (window sequence i (length subsequence)))
                   <=? max_substitutions)%Z
         (seq 0 (length sequence + 1 - length subsequence)).

(** The match the reference reports at window start [i]. *)
Definition reference_match (subsequence sequence : list A) (i : nat) : Match :=
  mkMatch i (i + length subsequence)
          (Z.of_nat (mismatches eq_dec subsequence
                       (window sequence i (length subsequence)))).

(** What every returned match is meant to satisfy (spec section 8). *)
Definition match_invariant (subsequence sequence : list A)
    (max_substitutions : Z) (m : Match) : Prop :=
  start m <= end_ m <= length sequence /\
  end_ m - start m = length subsequence /\
  dist m = Z.of_nat (mismatches eq_dec subsequence
                       (slice sequence (start m) (end_ m))) /\
  (dist m <= max_substitutions)%Z.

Definition opt_eqb (o1 o2 : option A) : bool :=
  match o1, o2 with
  | Some x, Some y => if eq_dec x y then true else false
  | _, _ => false
  end.

(** What an alignment slot of the ring is meant to hold: for the window
    starting at [s], the number of subsequence positions [j] that agree with
    the sequence item [s + j], counting only the items before index [u]. *)
Definition agree_upto (subsequence sequence : list A) (s u : nat) : nat :=
  count_true (fun j => (s + j <? u)
                       && opt_eqb (nth_error sequence (s + j))
                                  (nth_error subsequence j))
             (seq 0 (length subsequence)).

End Reference.

Arguments window {A} sequence i len.
Arguments valid_starts {A} eq_dec.
Arguments reference_match {A} eq_dec.
Arguments match_invariant {A} eq_dec.
Arguments opt_eqb {A} eq_dec.
Arguments agree_upto {A} eq_dec.

(** * Proofs *)

(** ** Generic list facts *)

Lemma count_true_app {T : Type} (f : T -> bool) l1 l2 :
  count_true f (l1 ++ l2) = count_true f l1 + count_true f l2.
Proof. unfold count_true. now rewrite filter_app, length_app. Qed.

Lemma count_true_cons {T : Type} (f : T -> bool) x l :
  count_true f (x :: l) = (if f x then 1 else 0) + count_true f l.
Proof. unfold count_true; simpl. now destruct (f x). Qed.

Lemma count_true_ext_in {T : Type} (f g : T -> bool) l :
  (forall x, In x l -> f x = g x) -> count_true f l = count_true g l.
Proof. intros H. unfold count_true. now rewrite (filter_ext_in f g l H). Qed.

Lemma count_true_or {T : Type} (f g : T -> bool) l :
  (forall x, f x = true -> g x = false) ->
  count_true (fun x => f x || g x) l = count_true f l + count_true g l.
Proof.
  intros Hex. induction l as [|x l IH]; [reflexivity|].
  unfold count_true in *; simpl.
  destruct (f x) eqn:Ef; simpl.
  - rewrite (Hex x Ef). simpl. now rewrite IH.
  - destruct (g x); simpl; rewrite IH; lia.
Qed.

Lemma count_true_map {T U : Type} (f : U -> bool) (g : T -> U) l :
  count_true f (map g l) = count_true (fun x => f (g x)) l.
Proof.
  induction l as [|x l IH]; [reflexivity|].
  unfold count_true in *; simpl. destruct (f (g x)); simpl; auto.
Qed.

Lemma count_true_seq_shift (f : nat -> bool) a n :
  count_true f (seq (S a) n) = count_true (fun j => f (S j)) (seq a n).
Proof. now rewrite <- seq_shift, count_true_map. Qed.

Lemma flat_map_filter_map {T U : Type} (f : T -> bool) (g : T -> U) l :
  flat_map (fun x => if f x then [g x] else []) l = map g (filter f l).
Proof.
  induction l as [|x l IH]; [reflexivity|]. simpl. destruct (f x); simpl; congruence.
Qed.

Lemma count_occ_filter_seq (f : nat -> bool) a n j :
  count_occ Nat.eq_dec (filter f (seq a n)) j =
  if (a <=? j) && (j <? a + n) && f j then 1 else 0.
Proof.
  revert a. induction n as [|n IH]; intros a; simpl.
  - destruct (a <=? j) eqn:E1, (j <? a + 0) eqn:E2; simpl; auto.
    apply Nat.leb_le in E1; apply Nat.ltb_lt in E2; lia.
  - destruct (f a) eqn:Ea; simpl.
    + destruct (Nat.eq_dec a j) as [<-|Hne].
      * rewrite IH, Ea.
        replace (a <=? a) with true by (symmetry; apply Nat.leb_le; lia).
        replace (a <? a + S n) with true by (symmetry; apply Nat.ltb_lt; lia).
        replace (S a <=? a) with false by (symmetry; apply Nat.leb_gt; lia).
        reflexivity.
      * rewrite IH.
        rewrite Nat.add_succ_r; simpl (S a + n).
        destruct (Nat.leb_spec (S a) j), (Nat.leb_spec a j); simpl; try lia;
          reflexivity.
    + rewrite IH.
      destruct (Nat.eq_dec a j) as [<-|Hne].
      * rewrite Ea. now rewrite !andb_false_r.
      * rewrite Nat.add_succ_r; simpl (S a + n).
        destruct (Nat.leb_spec (S a) j), (Nat.leb_spec a j); simpl; try lia;
          reflexivity.
Qed.

(** ** Mismatch counting *)

Section Mismatches.

Variable A : Type.
Variable eq_dec : forall x y : A, {x = y} + {x <> y}.

Lemma mismatches_comm xs ys :
  mismatches eq_dec xs ys = mismatches eq_dec ys xs.
Proof.
  revert ys; induction xs as [|x xs IH]; intros [|y ys]; simpl; auto.
  rewrite IH. destruct (eq_dec x y), (eq_dec y x); subst; congruence.
Qed.

Lemma mismatches_app xs1 xs2 ys1 ys2 :
  length xs1 = length ys1 ->
  mismatches eq_dec (xs1 ++ xs2) (ys1 ++ ys2)
  = mismatches eq_dec xs1 ys1 + mismatches eq_dec xs2 ys2.
Proof.
  revert ys1; induction xs1 as [|x xs1 IH]; intros [|y ys1] Hl;
    simpl in *; try discriminate; auto.
  rewrite IH by lia. lia.
Qed.

Lemma mismatches_zero_iff xs ys :
  length xs = length ys -> (mismatches eq_dec xs ys = 0 <-> xs = ys).
Proof.
  revert ys; induction xs as [|x xs IH]; intros [|y ys] Hl;
    simpl in *; try discriminate; [tauto|].
  destruct (eq_dec x y) as [<-|Hne]; simpl.
  - rewrite IH by lia. split; [now intros ->|now injection 1].
  - split; [lia|now injection 1].
Qed.

Lemma mismatches_list_eqb xs ys :
  length xs = length ys ->
  (if list_eqb eq_dec xs ys then 0 else mismatches eq_dec xs ys)
  = mismatches eq_dec xs ys.
Proof.
  intros Hl. unfold list_eqb. destruct (list_eq_dec eq_dec xs ys) as [<-|]; auto.
  symmetry. now apply mismatches_zero_iff.
Qed.

Lemma mismatches_pos_of_neq xs ys :
  length xs = length ys -> list_eqb eq_dec xs ys = false ->
  1 <= mismatches eq_dec xs ys.
Proof.
  intros Hl Hne. unfold list_eqb in Hne.
  destruct (list_eq_dec eq_dec xs ys) as [|Hn]; [discriminate|].
  destruct (mismatches eq_dec xs ys) eqn:E; [|lia].
  exfalso. apply Hn. now apply mismatches_zero_iff.
Qed.

Lemma mismatches_firstn n xs ys :
  mismatches eq_dec (firstn n xs) (firstn n ys) <= mismatches eq_dec xs ys.
Proof.
  revert n ys; induction xs as [|x xs IH]; intros [|n] [|y ys]; simpl; try lia.
  specialize (IH n ys). lia.
Qed.

(** The mismatch count seen position by position. *)
Lemma mismatches_positional xs ys :
  length xs = length ys ->
  mismatches eq_dec xs ys
  + count_true (fun j => opt_eqb eq_dec (nth_error ys j) (nth_error xs j))
               (seq 0 (length xs))
  = length xs.
Proof.
  revert ys; induction xs as [|x xs IH]; intros [|y ys] Hl;
    simpl in Hl; try discriminate; [reflexivity|].
  cbn [length mismatches].
  change (seq 0 (S (length xs))) with (0 :: seq 1 (length xs)).
  rewrite count_true_cons, count_true_seq_shift. cbn [nth_error].
  specialize (IH ys ltac:(lia)).
  unfold opt_eqb at 1.
  destruct (eq_dec x y) as [<-|Hne].
  - destruct (eq_dec x x) as [_|C]; [lia|congruence].
  - destruct (eq_dec y x) as [E|_]; [congruence|lia].
Qed.

Lemma length_slice (xs : list A) a b :
  b <= length xs -> a <= b -> length (slice xs a b) = b - a.
Proof. intros. unfold slice. rewrite length_firstn, length_skipn. lia. Qed.

Lemma nth_error_slice (xs : list A) a b j :
  j < b - a -> nth_error (slice xs a b) j = nth_error xs (a + j).
Proof.
  intros Hj. unfold slice. rewrite nth_error_firstn, nth_error_skipn.
  now replace (j <? b - a) with true by (symmetry; apply Nat.ltb_lt; lia).
Qed.

Lemma slice_split (xs : list A) a b c :
  a <= b -> b <= c -> slice xs a c = slice xs a b ++ slice xs b c.
Proof.
  intros Hab Hbc. unfold slice.
  replace (c - a) with ((b - a) + (c - b)) by lia.
  rewrite <- (firstn_skipn (b - a) (skipn a xs)) at 1.
  rewrite firstn_app, firstn_firstn, skipn_skipn.
  rewrite length_firstn.
  destruct (Nat.le_gt_cases (b - a) (length (skipn a xs))) as [Hle|Hgt].
  - replace (Nat.min (b - a + (c - b)) (b - a)) with (b - a) by lia.
    replace (min (b - a) (length (skipn a xs))) with (b - a) by lia.
    replace (b - a + (c - b) - (b - a)) with (c - b) by lia.
    now replace (b - a + a) with b by lia.
  - rewrite length_skipn in Hgt.
    assert (E1 : skipn (b - a + a) xs = []) by (apply skipn_all2; lia).
    assert (E2 : skipn b xs = []) by (apply skipn_all2; lia).
    rewrite E1, E2.
    rewrite !firstn_nil, !app_nil_r.
    now replace (Nat.min (b - a + (c - b)) (b - a)) with (b - a) by lia.
Qed.

End Mismatches.

(** ** Deque operations *)

Lemma deque_get_ok d i : i < length d -> deque_get d i = Ok (nth i d 0).
Proof.
  revert i; induction d as [|x d IH]; intros [|i] Hi; simpl in *; try lia; auto.
  apply IH. lia.
Qed.

Lemma deque_set_ok d i v :
  i < length d ->
  exists d', deque_set d i v = Ok d' /\ length d' = length d /\
             forall p, nth p d' 0 = if p =? i then v else nth p d 0.
Proof.
  revert i; induction d as [|x d IH]; intros [|i] Hi; simpl in *; try lia.
  - exists (v :: d). split; [reflexivity|]. split; [reflexivity|].
    intros [|p]; reflexivity.
  - destruct (IH i ltac:(lia)) as (d' & E & Hl & Hn). rewrite E. simpl.
    exists (x :: d'). split; [reflexivity|]. split; [simpl; lia|].
    intros [|p]; simpl; auto.
Qed.

Lemma incr_all_ok js d :
  (forall j, In j js -> j < length d) ->
  exists d', incr_all js d = Ok d' /\ length d' = length d /\
             forall p, nth p d' 0 = nth p d 0 + count_occ Nat.eq_dec js p.
Proof.
  revert d; induction js as [|j js IH]; intros d Hin; simpl.
  - exists d. split; [reflexivity|]. split; [reflexivity|]. intros; lia.
  - unfold deque_incr. rewrite deque_get_ok by (apply Hin; now left). simpl.
    destruct (deque_set_ok d j (nth j d 0 + 1)) as (d1 & E1 & Hl1 & Hn1).
    { apply Hin; now left. }
    rewrite E1. simpl.
    destruct (IH d1) as (d2 & E2 & Hl2 & Hn2).
    { intros j' Hj'. rewrite Hl1. apply Hin. now right. }
    exists d2. split; [exact E2|]. split; [lia|].
    intros p. rewrite Hn2, Hn1.
    destruct (Nat.eq_dec j p) as [<-|Hne].
    + rewrite Nat.eqb_refl. lia.
    + replace (p =? j) with false by (symmetry; apply Nat.eqb_neq; auto). lia.
Qed.

Lemma deque_rotate1_spec d :
  d <> [] ->
  length (deque_rotate1 d) = length d /\
  nth 0 (deque_rotate1 d) 0 = nth (length d - 1) d 0 /\
  forall p, p + 1 < length d -> nth (S p) (deque_rotate1 d) 0 = nth p d 0.
Proof.
  intros Hne.
  assert (Hd : d = removelast d ++ [last d 0]) by (apply app_removelast_last; exact Hne).
  assert (Hl : length d = length (removelast d) + 1)
    by (rewrite Hd at 1; now rewrite length_app).
  unfold deque_rotate1. destruct d as [|x d']; [congruence|].
  set (d := x :: d') in *. clearbody d.
  set (r := removelast d) in *. set (z := last d 0) in *.
  split; [simpl; lia|]. split.
  - cbn [nth]. rewrite Hl. rewrite Hd at 1. rewrite app_nth2 by lia.
    now replace (length r + 1 - 1 - length r) with 0 by lia.
  - intros p Hp. cbn [nth]. rewrite Hd at 1. rewrite app_nth1 by lia.
    reflexivity.
Qed.

(** ** The element index of the subsequence *)

Section CharIndexes.

Variable A : Type.
Variable eq_dec : forall x y : A, {x = y} + {x <> y}.

Lemma char_indexes_fold (xs : list A) k (m : A -> list nat) x :
  fold_left (fun (m : A -> list nat) (ic : nat * A) =>
               let (index, char) := ic in
               fun x => if eq_dec x char then m x ++ [index] else m x)
            (enumerate_from k xs) m x
  = m x ++ filter (fun j => opt_eqb eq_dec (Some x) (nth_error xs (j - k)))
                  (seq k (length xs)).
Proof.
  revert k m; induction xs as [|a xs IH]; intros k m; simpl.
  - now rewrite app_nil_r.
  - rewrite IH. cbn beta. cbn [length seq filter]. rewrite Nat.sub_diag.
    cbn [nth_error].
    assert (Hf : forall j, In j (seq (S k) (length xs)) ->
              opt_eqb eq_dec (Some x) (nth_error xs (j - S k))
              = opt_eqb eq_dec (Some x) (nth_error (a :: xs) (j - k))).
    { intros j Hj. apply in_seq in Hj.
      now replace (j - k) with (S (j - S k)) by lia. }
    destruct (eq_dec x a) as [<-|Hne].
    + rewrite <- app_assoc. f_equal. simpl. f_equal. apply filter_ext_in; exact Hf.
    + f_equal. apply filter_ext_in; exact Hf.
Qed.

Lemma char_indexes_count (subsequence : list A) c j :
  count_occ Nat.eq_dec (char_indexes eq_dec subsequence c) j
  = if (j <? length subsequence)
       && opt_eqb eq_dec (Some c) (nth_error subsequence j) then 1 else 0.
Proof.
  unfold char_indexes, enumerate. rewrite char_indexes_fold. simpl.
  rewrite count_occ_filter_seq. simpl.
  now rewrite Nat.sub_0_r.
Qed.

End CharIndexes.

Lemma count_occ_filter (f : nat -> bool) l x :
  count_occ Nat.eq_dec (filter f l) x
  = if f x then count_occ Nat.eq_dec l x else 0.
Proof.
  induction l as [|y l IH]; simpl; [now destruct (f x)|].
  destruct (f y) eqn:Ey; simpl; rewrite IH;
    destruct (Nat.eq_dec y x) as [<-|]; try rewrite Ey; auto.
Qed.

Lemma count_true_eq_seq (h : nat -> bool) s u n :
  count_true (fun j => (s + j =? u) && h j) (seq 0 n)
  = if (s <=? u) && (u - s <? n) && h (u - s) then 1 else 0.
Proof.
  induction n as [|n IH].
  - replace (u - s <? 0) with false by (symmetry; apply Nat.ltb_ge; lia).
    now rewrite andb_false_r.
  - rewrite seq_S, count_true_app, IH. simpl.
    unfold count_true; simpl.
    destruct (Nat.eqb_spec (s + n) u) as [<-|Hne].
    + replace (s + n - s) with n by lia.
      rewrite Nat.ltb_irrefl.
      replace (n <? S n) with true by (symmetry; apply Nat.ltb_lt; lia).
      replace (s <=? s + n) with true by (symmetry; apply Nat.leb_le; lia).
      simpl. destruct (h n); reflexivity.
    + simpl. rewrite Nat.add_0_r.
      destruct (Nat.leb_spec s u); simpl; [|reflexivity].
      replace (u - s <? S n) with (u - s <? n)
        by (destruct (Nat.ltb_spec (u - s) n), (Nat.ltb_spec (u - s) (S n));
            auto; lia).
      reflexivity.
Qed.

(** ** The ring-counter matcher *)

Section Ring.

Variable A : Type.
Variable eq_dec : forall x y : A, {x = y} + {x <> y}.
Variables subsequence sequence : list A.

Let L := length subsequence.
Let agree := agree_upto eq_dec subsequence sequence.
Let ci := char_indexes eq_dec subsequence.

Lemma agree_upto_refl s : agree s s = 0.
Proof.
  unfold agree, agree_upto.
  rewrite (count_true_ext_in _ (fun _ => false)); [now induction (seq 0 _)|].
  intros j _. replace (s + j <? s) with false by (symmetry; apply Nat.ltb_ge; lia).
  reflexivity.
Qed.

Lemma agree_upto_step s u c :
  nth_error sequence u = Some c ->
  agree s (S u) = agree s u
    + (if (s <=? u) && (u - s <? L)
          && opt_eqb eq_dec (Some c) (nth_error subsequence (u - s))
       then 1 else 0).
Proof.
  intros Hu. unfold agree, agree_upto.
  set (E := fun j => opt_eqb eq_dec (nth_error sequence (s + j))
                             (nth_error subsequence j)).
  rewrite (count_true_ext_in _ (fun j => ((s + j <? u) && E j)
                                         || ((s + j =? u) && E j))).
  2:{ intros j _. unfold E.
      destruct (opt_eqb eq_dec (nth_error sequence (s + j))
                        (nth_error subsequence j));
      destruct (Nat.ltb_spec (s + j) (S u)), (Nat.ltb_spec (s + j) u),
        (Nat.eqb_spec (s + j) u); simpl; auto; lia. }
  rewrite count_true_or.
  2:{ intros j Hj. apply andb_true_iff in Hj as [Hj _].
      apply Nat.ltb_lt in Hj.
      destruct (Nat.eqb_spec (s + j) u); [lia|reflexivity]. }
  rewrite count_true_eq_seq. f_equal. unfold E.
  destruct (Nat.leb_spec s u); simpl; [|reflexivity].
  now replace (s + (u - s)) with u by lia; rewrite Hu.
Qed.

Lemma agree_upto_full s :
  s + L <= length sequence ->
  agree s (s + L) + mismatches eq_dec subsequence (window sequence s L) = L.
Proof.
  intros Hs.
  assert (Hw : length (window sequence s L) = L)
    by (unfold window; rewrite length_slice by lia; lia).
  pose proof (mismatches_positional A eq_dec subsequence (window sequence s L))
    as Hp.
  fold L in Hp. rewrite Hw in Hp. specialize (Hp eq_refl).
  rewrite <- Hp at 3. rewrite Nat.add_comm. f_equal.
  unfold agree, agree_upto. fold L. apply count_true_ext_in.
  intros j Hj. apply in_seq in Hj.
  replace (s + j <? s + L) with true by (symmetry; apply Nat.ltb_lt; lia).
  unfold window. rewrite nth_error_slice by lia. reflexivity.
Qed.

Lemma ci_bound c j : In j (ci c) -> j < L.
Proof.
  intros Hj. apply (count_occ_In Nat.eq_dec) in Hj.
  unfold ci in Hj. rewrite char_indexes_count in Hj.
  destruct (Nat.ltb_spec j (length subsequence)); simpl in Hj; [exact H|lia].
Qed.

(** The first loop keeps, for every slot [p <= i] of a deque of length
    [i + 1], the agreement count of the window starting at [i - p]. *)
Lemma lp_warmup_step_ok i c d :
  nth_error sequence i = Some c -> i + 2 <= L ->
  length d = i + 1 ->
  (forall p, p <= i -> nth p d 0 = agree (i - p) i) ->
  exists d', lp_warmup_step L ci d (i, c) = Ok d' /\
    length d' = S i + 1 /\
    forall p, p <= S i -> nth p d' 0 = agree (S i - p) (S i).
Proof.
  intros Hc Hi Hl Hd. unfold lp_warmup_step.
  destruct (incr_all_ok (filter (fun idx => idx <=? i) (ci c)) d)
    as (d1 & E1 & Hl1 & Hn1).
  { intros j Hj. apply filter_In in Hj as [_ Hj]. apply Nat.leb_le in Hj. lia. }
  rewrite E1. simpl. eexists; split; [reflexivity|].
  unfold deque_appendleft. rewrite firstn_all2 by (simpl; lia).
  split; [simpl; lia|].
  intros [|p] Hp; simpl.
  - now rewrite agree_upto_refl.
  - rewrite Hn1, Hd by lia. rewrite count_occ_filter.
    rewrite (agree_upto_step (i - p) i c Hc).
    unfold ci. rewrite char_indexes_count. fold L.
    replace (i - (i - p)) with p by lia.
    replace (p <=? i) with true by (symmetry; apply Nat.leb_le; lia).
    replace (i - p <=? i) with true by (symmetry; apply Nat.leb_le; lia).
    reflexivity.
Qed.

Lemma lp_warmup_ok xs i d :
  (forall j, j < length xs -> nth_error xs j = nth_error sequence (i + j)) ->
  i + length xs + 1 <= L ->
  length d = i + 1 ->
  (forall p, p <= i -> nth p d 0 = agree (i - p) i) ->
  exists d', fold_m (lp_warmup_step L ci) (enumerate_from i xs) d = Ok d' /\
    length d' = i + length xs + 1 /\
    forall p, p <= i + length xs ->
      nth p d' 0 = agree (i + length xs - p) (i + length xs).
Proof.
  revert i d; induction xs as [|x xs IH]; intros i d Hxs Hi Hl Hd;
    cbn [enumerate_from fold_m length].
  - exists d. rewrite Nat.add_0_r. auto.
  - assert (Hc : nth_error sequence i = Some x).
    { rewrite <- (Nat.add_0_r i), <- Hxs by (simpl; lia). reflexivity. }
    simpl in Hi.
    destruct (lp_warmup_step_ok i x d Hc ltac:(lia) Hl Hd) as (d1 & E1 & Hl1 & Hd1).
    rewrite E1. cbn [bind].
    destruct (IH (S i) d1) as (d2 & E2 & Hl2 & Hd2); auto; try lia.
    { intros j Hj. replace (S i + j) with (i + S j) by lia.
      rewrite <- Hxs by (simpl; lia). reflexivity. }
    exists d2. split; [exact E2|].
    replace (i + S (length xs)) with (S i + length xs) by lia. auto.
Qed.

(** The match the second loop reports, if any, for the window starting at
    [s]. *)
Lemma lp_steady_step_ok K i c d out :
  nth_error sequence i = Some c -> 1 <= L -> L - 1 <= i ->
  length d = L ->
  (forall p, p < L -> nth p d 0 = agree (i - p) i) ->
  exists d', lp_steady_step L ci K (d, out) (i, c)
             = Ok (d', out ++ (fun s =>
                 if (Z.of_nat (mismatches eq_dec subsequence
                                 (window sequence s L)) <=? K)%Z
                 then [reference_match eq_dec subsequence sequence s]
                 else []) (i + 1 - L)) /\
    length d' = L /\
    forall p, p < L -> nth p d' 0 = agree (S i - p) (S i).
Proof.
  intros Hc HL Hi Hl Hd. unfold lp_steady_step.
  destruct (incr_all_ok (ci c) d) as (d1 & E1 & Hl1 & Hn1).
  { intros j Hj. rewrite Hl. now apply (ci_bound c). }
  rewrite E1. simpl.
  assert (Hne : d1 <> []) by (intros ->; simpl in Hl1; lia).
  destruct (deque_rotate1_spec d1 Hne) as (Hlr & Hr0 & HrS).
  rewrite deque_get_ok by lia. simpl.
  destruct (deque_set_ok (deque_rotate1 d1) 0 0) as (d3 & E3 & Hl3 & Hn3);
    [lia|].
  rewrite E3. simpl.
  assert (Hlen : i < length sequence)
    by (apply nth_error_Some; congruence).
  assert (Hcnt : forall p, p < L ->
            nth p d1 0 = agree (i - p) (S i)).
  { intros p Hp. rewrite Hn1, Hd by exact Hp.
    rewrite (agree_upto_step (i - p) i c Hc).
    unfold ci. rewrite char_indexes_count. fold L.
    replace (i - (i - p)) with p by lia.
    replace (i - p <=? i) with true by (symmetry; apply Nat.leb_le; lia).
    reflexivity. }
  assert (Hfull := agree_upto_full (i + 1 - L) ltac:(lia)).
  replace (i + 1 - L + L) with (S i) in Hfull by lia.
  rewrite Hr0, Hl1, Hl, Hcnt by lia.
  replace (i - (L - 1)) with (i + 1 - L) by lia.
  replace (Z.of_nat L - Z.of_nat (agree (i + 1 - L) (S i)))%Z
    with (Z.of_nat (mismatches eq_dec subsequence
                      (window sequence (i + 1 - L) L))) by lia.
  exists d3. split.
  - unfold reference_match. fold L.
    replace (i + 1 - L + L) with (i + 1) by lia.
    destruct (_ <=? K)%Z; [reflexivity|now rewrite app_nil_r].
  - split; [lia|]. intros [|p] Hp; rewrite Hn3; simpl.
    + now rewrite agree_upto_refl.
    + rewrite HrS by lia. rewrite Hcnt by lia. reflexivity.
Qed.

Lemma lp_steady_ok K xs i d out :
  (forall j, j < length xs -> nth_error xs j = nth_error sequence (i + j)) ->
  1 <= L -> L - 1 <= i ->
  length d = L ->
  (forall p, p < L -> nth p d 0 = agree (i - p) i) ->
  exists d', fold_m (lp_steady_step L ci K) (enumerate_from i xs) (d, out)
    = Ok (d', out ++ flat_map (fun s =>
                 if (Z.of_nat (mismatches eq_dec subsequence
                                 (window sequence s L)) <=? K)%Z
                 then [reference_match eq_dec subsequence sequence s]
                 else []) (seq (i + 1 - L) (length xs))).
Proof.
  revert i d out; induction xs as [|x xs IH]; intros i d out Hxs HL Hi Hl Hd;
    cbn [enumerate_from fold_m length].
  - exists d. now rewrite app_nil_r.
  - assert (Hc : nth_error sequence i = Some x).
    { rewrite <- (Nat.add_0_r i), <- Hxs by (simpl; lia). reflexivity. }
    destruct (lp_steady_step_ok K i x d out Hc HL Hi Hl Hd)
      as (d1 & E1 & Hl1 & Hd1).
    rewrite E1. cbn [bind].
    destruct (IH (S i) d1 (out ++ (fun s =>
                 if (Z.of_nat (mismatches eq_dec subsequence
                                 (window sequence s L)) <=? K)%Z
                 then [reference_match eq_dec subsequence sequence s]
                 else []) (i + 1 - L))) as (d2 & E2); auto; try lia.
    { intros j Hj. replace (S i + j) with (i + S j) by lia.
      rewrite <- Hxs by (simpl; lia). reflexivity. }
    exists d2. rewrite E2, <- app_assoc.
    replace (S i + 1 - L) with (S (i + 1 - L)) by lia. reflexivity.
Qed.

End Ring.

Lemma firstn_enumerate_from {T : Type} n k (xs : list T) :
  firstn n (enumerate_from k xs) = enumerate_from k (firstn n xs).
Proof.
  revert n k; induction xs as [|x xs IH]; intros [|n] k; simpl; auto.
  now rewrite IH.
Qed.

Lemma skipn_enumerate_from {T : Type} n k (xs : list T) :
  skipn n (enumerate_from k xs) = enumerate_from (k + n) (skipn n xs).
Proof.
  revert n k; induction xs as [|x xs IH]; intros [|n] k; simpl;
    try now rewrite ?Nat.add_0_r.
  rewrite IH. now replace (S k + n) with (k + S n) by lia.
Qed.

Section LinearSpec.

Variable A : Type.
Variable eq_dec : forall x y : A, {x = y} + {x <> y}.

(** The ring-counter matcher yields exactly the brute-force matches, in
    increasing order of start. *)
Lemma linear_programming_spec (subsequence sequence : list A) K :
  subsequence <> [] ->
  find_near_matches_substitutions_linear_programming eq_dec
    subsequence sequence K
  = Ok (map (reference_match eq_dec subsequence sequence)
            (valid_starts eq_dec subsequence sequence K)).
Proof.
  intros Hne.
  assert (HL : 1 <= length subsequence)
    by (destruct subsequence; [congruence|simpl; lia]).
  unfold find_near_matches_substitutions_linear_programming.
  destruct subsequence as [|a s'] eqn:ES; [congruence|].
  rewrite <- ES in *. clear a s' ES.
  set (L := length subsequence) in *.
  unfold enumerate. rewrite firstn_enumerate_from, skipn_enumerate_from.
  replace (firstn L [0]) with [0]
    by (destruct L as [|[|L']]; simpl; [lia|reflexivity|reflexivity]).
  destruct (lp_warmup_ok A eq_dec subsequence sequence
              (firstn (L - 1) sequence) 0 [0]) as (d & E1 & Hl1 & Hd1).
  { intros j Hj. rewrite length_firstn in Hj.
    rewrite nth_error_firstn.
    now replace (j <? L - 1) with true by (symmetry; apply Nat.ltb_lt; lia). }
  { rewrite length_firstn. fold L. lia. }
  { reflexivity. }
  { intros p Hp. replace p with 0 by lia. simpl.
    symmetry. apply agree_upto_refl. }
  fold L in E1. rewrite E1. cbn [bind].
  rewrite length_firstn in Hl1, Hd1.
  unfold valid_starts. fold L.
  destruct (Nat.le_gt_cases (L - 1) (length sequence)) as [Hge|Hlt].
  - replace (Nat.min (L - 1) (length sequence)) with (L - 1) in * by lia.
    destruct (lp_steady_ok A eq_dec subsequence sequence K
                (skipn (L - 1) sequence) (L - 1) d [])
      as (d' & E2); fold L; auto; try lia.
    { intros j Hj. now rewrite nth_error_skipn. }
    { intros p Hp. rewrite Hd1 by lia. reflexivity. }
    rewrite Nat.add_0_l. fold L in E2. rewrite E2. cbn [bind snd app].
    rewrite flat_map_filter_map, length_skipn.
    now replace (L - 1 + 1 - L) with 0 by lia;
      replace (length sequence - (L - 1)) with (length sequence + 1 - L) by lia.
  - rewrite skipn_all2 by lia. cbn [enumerate_from fold_m bind snd].
    now replace (length sequence + 1 - L) with 0 by lia.
Qed.

End LinearSpec.

(** ** The n-gram partition matcher *)

Section Ngrams.

Variable A : Type.
Variable eq_dec : forall x y : A, {x = y} + {x <> y}.

Lemma list_eqb_true_iff (xs ys : list A) : list_eqb eq_dec xs ys = true <-> xs = ys.
Proof.
  unfold list_eqb. destruct (list_eq_dec eq_dec xs ys); split; congruence.
Qed.

Lemma search_exact_In fragment sequence start_index end_index i :
  In i (search_exact eq_dec fragment sequence start_index end_index) <->
  start_index <= i /\ i < length sequence /\
  (Z.of_nat (i + length fragment) <= end_index)%Z /\
  slice sequence i (i + length fragment) = fragment.
Proof.
  unfold search_exact. rewrite filter_In, in_seq, andb_true_iff, Z.leb_le,
    list_eqb_true_iff.
  split; intros H; repeat split; try tauto; try lia.
Qed.

Lemma slice_slice (xs : list A) a b c d :
  b <= d -> a + d <= c ->
  slice (slice xs a c) b d = slice xs (a + b) (a + d).
Proof.
  intros Hbd Hdc. unfold slice.
  rewrite skipn_firstn_comm, firstn_firstn, skipn_skipn.
  replace (Nat.min (d - b) (c - a - b)) with (d - b) by lia.
  replace (a + d - (a + b)) with (d - b) by lia.
  now rewrite Nat.add_comm.
Qed.

Lemma firstn_as_slices (xs : list A) a b :
  a <= b -> firstn b xs = firstn a xs ++ slice xs a b.
Proof.
  intros Hab.
  assert (H0 : forall n, firstn n xs = slice xs 0 n)
    by (intros n; unfold slice; now rewrite Nat.sub_0_r).
  rewrite !H0. apply slice_split; lia.
Qed.

(** Pigeonhole over the fragments [k*g .. k*g+g) for [k < n]: either one of
    them matches exactly, or each contributes a mismatch. *)
Lemma fragments_pigeonhole (xs ys : list A) g n :
  length xs = length ys -> n * g <= length xs ->
  (exists k, k < n /\ slice xs (k * g) (k * g + g)
                      = slice ys (k * g) (k * g + g)) \/
  n <= mismatches eq_dec (firstn (n * g) xs) (firstn (n * g) ys).
Proof.
  intros Hl. induction n as [|n IH]; intros Hn; [right; lia|].
  destruct IH as [(k & Hk & Heq)|Hmis]; [lia| |].
  - left. exists k. split; [lia|exact Heq].
  - destruct (list_eq_dec eq_dec (slice xs (n * g) (n * g + g))
                                 (slice ys (n * g) (n * g + g))) as [Heq|Hne].
    + left. exists n. split; [lia|exact Heq].
    + right.
      replace (S n * g) with (n * g + g) in * by lia.
      rewrite (firstn_as_slices xs (n * g)), (firstn_as_slices ys (n * g))
        by lia.
      rewrite mismatches_app by (rewrite !length_firstn; lia).
      assert (1 <= mismatches eq_dec (slice xs (n * g) (n * g + g))
                                     (slice ys (n * g) (n * g + g))).
      { apply mismatches_pos_of_neq.
        - rewrite !length_slice; lia.
        - unfold list_eqb. now destruct (list_eq_dec eq_dec _ _). }
      lia.
Qed.

Lemma keep_some_In {T U : Type} (F : T -> option U) l m :
  In m (keep_some (map F l)) <-> exists x, In x l /\ F x = Some m.
Proof.
  induction l as [|x l IH]; simpl.
  - split; [tauto|]. intros (x & [] & _).
  - destruct (F x) eqn:Fx; simpl; rewrite IH; split.
    + intros [<-|(y & Hy & Fy)]; [exists x; auto|exists y; auto].
    + intros (y & [<-|Hy] & Fy); [left; congruence|right; exists y; auto].
    + intros (y & Hy & Fy). exists y. auto.
    + intros (y & [<-|Hy] & Fy); [congruence|exists y; auto].
Qed.

Lemma valid_starts_In subsequence sequence K s :
  In s (valid_starts eq_dec subsequence sequence K) <->
  s + length subsequence <= length sequence /\
  (Z.of_nat (mismatches eq_dec subsequence
               (window sequence s (length subsequence))) <= K)%Z.
Proof.
  unfold valid_starts. rewrite filter_In, in_seq, Z.leb_le.
  split; intros [H1 H2]; split; auto; lia.
Qed.

End Ngrams.

Section NgramHit.

Variable A : Type.
Variable eq_dec : forall x y : A, {x = y} + {x <> y}.

(** A window around an exact fragment hit splits into the part before the
    fragment, the fragment and the part after it. *)
Lemma window_mismatches_split (subsequence sequence : list A) f g h :
  f + g <= length subsequence -> f <= h ->
  h - f + length subsequence <= length sequence ->
  slice sequence h (h + g) = slice subsequence f (f + g) ->
  mismatches eq_dec subsequence
    (window sequence (h - f) (length subsequence))
  = mismatches eq_dec (firstn f subsequence) (slice sequence (h - f) h)
    + mismatches eq_dec (skipn (f + g) subsequence)
        (slice sequence (h + g) (h - f + length subsequence)).
Proof.
  intros Hfg Hfh HN Hfrag.
  set (L := length subsequence) in *.
  unfold window.
  rewrite (slice_split A sequence (h - f) h (h - f + L)) by lia.
  rewrite (slice_split A sequence h (h + g) (h - f + L)) by lia.
  rewrite Hfrag.
  rewrite <- (firstn_skipn f subsequence) at 1.
  rewrite <- (firstn_skipn g (skipn f subsequence)).
  rewrite skipn_skipn.
  replace (firstn g (skipn f subsequence)) with (slice subsequence f (f + g))
    by (unfold slice; now replace (f + g - f) with g by lia).
  rewrite mismatches_app
    by (rewrite length_firstn, length_slice; fold L; lia).
  rewrite mismatches_app by (rewrite !length_slice; fold L; lia).
  assert (Hz : mismatches eq_dec (slice subsequence f (f + g))
                                 (slice subsequence f (f + g)) = 0)
    by (apply mismatches_zero_iff; auto).
  rewrite Hz. now replace (g + f) with (f + g) by lia.
Qed.

(** What the inner loop does with one exact hit of the fragment at
    [ngram_start]: it yields the reference match of the window around the
    hit exactly when that window is within the budget. *)
Lemma ngram_hit_spec (subsequence sequence : list A) K f g h :
  (0 <= K)%Z -> f + g <= length subsequence -> f <= h ->
  h - f + length subsequence <= length sequence ->
  slice sequence h (h + g) = slice subsequence f (f + g) ->
  ngram_hit eq_dec subsequence sequence K f g h =
  if (Z.of_nat (mismatches eq_dec subsequence
                  (window sequence (h - f) (length subsequence))) <=? K)%Z
  then Some (reference_match eq_dec subsequence sequence (h - f))
  else None.
Proof.
  intros HK Hfg Hfh HN Hfrag.
  rewrite (window_mismatches_split subsequence sequence f g h Hfg Hfh HN Hfrag).
  unfold ngram_hit, reference_match. cbv zeta.
  rewrite (window_mismatches_split subsequence sequence f g h Hfg Hfh HN Hfrag).
  set (L := length subsequence) in *.
  rewrite (mismatches_comm A eq_dec (slice sequence (h - f) h)).
  rewrite (mismatches_comm A eq_dec (slice sequence (h + g) (h - f + L))).
  set (bS := firstn f subsequence). set (bT := slice sequence (h - f) h).
  set (aS := skipn (f + g) subsequence).
  set (aT := slice sequence (h + g) (h - f + L)).
  assert (Hlb : length bS = length bT)
    by (unfold bS, bT; rewrite length_firstn, length_slice; fold L; lia).
  assert (Hla : length aS = length aT)
    by (unfold aS, aT; rewrite length_skipn, length_slice; fold L; lia).
  destruct (list_eqb eq_dec bS bT) eqn:Eb.
  - apply list_eqb_true_iff in Eb. rewrite <- Eb.
    replace (mismatches eq_dec bS bS) with 0
      by (symmetry; now apply mismatches_zero_iff). cbn [negb andb].
    destruct (list_eqb eq_dec aS aT) eqn:Ea.
    + apply list_eqb_true_iff in Ea. rewrite <- Ea.
      replace (mismatches eq_dec aS aS) with 0
        by (symmetry; now apply mismatches_zero_iff).
      replace (0 + 0)%nat with 0 by reflexivity.
      destruct (Z.leb_spec (Z.of_nat 0) K); [reflexivity|lia].
    + pose proof (mismatches_pos_of_neq A eq_dec aS aT Hla Ea).
      destruct (Z.eqb_spec 0 K) as [<-|HK0].
      * destruct (Z.leb_spec (Z.of_nat (0 + mismatches eq_dec aS aT)) 0);
          [lia|reflexivity].
      * rewrite Nat.add_0_l, Z.add_0_l.
        destruct (Z.ltb_spec K (Z.of_nat (mismatches eq_dec aS aT))),
          (Z.leb_spec (Z.of_nat (mismatches eq_dec aS aT)) K);
          try lia; reflexivity.
  - pose proof (mismatches_pos_of_neq A eq_dec bS bT Hlb Eb).
    cbn [negb andb].
    destruct (Z.ltb_spec K (Z.of_nat (mismatches eq_dec bS bT))).
    + destruct (Z.leb_spec (Z.of_nat (mismatches eq_dec bS bT
                                      + mismatches eq_dec aS aT)) K);
        [lia|reflexivity].
    + destruct (list_eqb eq_dec aS aT) eqn:Ea.
      * apply list_eqb_true_iff in Ea. rewrite <- Ea.
        replace (mismatches eq_dec aS aS) with 0
          by (symmetry; now apply mismatches_zero_iff).
        rewrite Nat.add_0_r.
        destruct (Z.leb_spec (Z.of_nat (mismatches eq_dec bS bT)) K);
          [reflexivity|lia].
      * pose proof (mismatches_pos_of_neq A eq_dec aS aT Hla Ea).
        destruct (Z.eqb_spec (Z.of_nat (mismatches eq_dec bS bT)) K).
        -- destruct (Z.leb_spec (Z.of_nat (mismatches eq_dec bS bT
                                            + mismatches eq_dec aS aT)) K);
             [lia|reflexivity].
        -- rewrite Nat2Z.inj_add.
           destruct (Z.ltb_spec K (Z.of_nat (mismatches eq_dec bS bT)
                                   + Z.of_nat (mismatches eq_dec aS aT))),
             (Z.leb_spec (Z.of_nat (mismatches eq_dec bS bT)
                          + Z.of_nat (mismatches eq_dec aS aT)) K);
             try lia; reflexivity.
Qed.

End NgramHit.

Lemma ngram_starts_spec L g :
  (0 < g)%Z ->
  ngram_starts L g
  = map (fun k => (g * Z.of_nat k)%Z) (seq 0 (Z.to_nat (Z.of_nat L / g))).
Proof.
  intros Hg. unfold ngram_starts, py_range.
  replace (0 <? g)%Z with true by (symmetry; now apply Z.ltb_lt).
  replace (Z.of_nat L - g + 1 - 0 + g - 1)%Z with (Z.of_nat L) by lia.
  apply map_ext. intros k. lia.
Qed.

Lemma ngram_length_ok L K :
  (0 <= K)%Z -> ngram_length L K = Ok (Z.of_nat L / (K + 1))%Z.
Proof.
  intros HK. unfold ngram_length.
  now replace (K + 1 =? 0)%Z with false by (symmetry; apply Z.eqb_neq; lia).
Qed.

Section NgramSpec.

Variable A : Type.
Variable eq_dec : forall x y : A, {x = y} + {x <> y}.

(** Soundness and completeness of the raw n-gram enumeration: the matches
    it yields (with repetitions) are exactly the reference matches of the
    valid window starts. *)
Lemma ngrams_raw_spec (subsequence sequence : list A) K :
  (0 <= K)%Z -> (K < Z.of_nat (length subsequence))%Z ->
  exists raw,
    find_near_matches_substitutions_ngrams_raw eq_dec subsequence sequence K
    = Ok raw /\
    forall m, In m raw <->
      exists s, In s (valid_starts eq_dec subsequence sequence K) /\
                m = reference_match eq_dec subsequence sequence s.
Proof.
  intros HK HKL.
  set (L := length subsequence) in *.
  set (g := (Z.of_nat L / (K + 1))%Z).
  assert (Hg1 : (1 <= g)%Z) by (apply Z.div_le_lower_bound; lia).
  assert (Hqg : ((K + 1) * g <= Z.of_nat L)%Z) by (apply Z.mul_div_le; lia).
  assert (HKq : (K + 1 <= Z.of_nat L / g)%Z)
    by (apply Z.div_le_lower_bound; lia).
  assert (Hgq : (g * (Z.of_nat L / g) <= Z.of_nat L)%Z)
    by (apply Z.mul_div_le; lia).
  set (gn := Z.to_nat g).
  assert (Hgn : Z.of_nat gn = g) by (apply Z2Nat.id; lia).
  unfold find_near_matches_substitutions_ngrams_raw. fold L.
  rewrite ngram_length_ok by exact HK. cbn [bind]. fold g.
  replace (g =? 0)%Z with false by (symmetry; apply Z.eqb_neq; lia).
  eexists; split; [reflexivity|].
  intros m. rewrite in_flat_map, ngram_starts_spec by lia.
  assert (Hfn : forall k, Z.to_nat (g * Z.of_nat k) = gn * k)
    by (intros k; rewrite <- Hgn, <- Nat2Z.inj_mul; apply Nat2Z.id).
  split.
  - intros (f & Hf & Hm). apply in_map_iff in Hf as (k & <- & Hk).
    apply in_seq in Hk.
    assert (Hkq : (Z.of_nat k + 1 <= Z.of_nat L / g)%Z) by lia.
    assert (Hkg : ((Z.of_nat k + 1) * g <= Z.of_nat L)%Z) by nia.
    rewrite Hfn in Hm. fold gn in Hm.
    assert (Hkgn : gn * k + gn <= L) by nia.
    unfold ngram_fragment_matches in Hm. apply keep_some_In in Hm.
    destruct Hm as (h & Hh & Hm).
    apply search_exact_In in Hh as (Hh1 & Hh2 & Hh3 & Hh4).
    rewrite length_slice in Hh3, Hh4 by lia.
    replace (gn * k + gn - gn * k) with gn in Hh3, Hh4 by lia.
    fold L in Hh3.
    assert (HN : h - gn * k + L <= length sequence) by lia.
    rewrite ngram_hit_spec in Hm by (auto; lia).
    destruct (_ <=? K)%Z eqn:Hok in Hm; [|discriminate].
    injection Hm as <-. exists (h - gn * k). split; [|reflexivity].
    apply valid_starts_In. split; [exact HN|]. now apply Z.leb_le.
  - intros (s & Hs & ->). apply valid_starts_In in Hs as [HsN Hmis].
    fold L in HsN, Hmis.
    set (W := window sequence s L).
    assert (HW : length W = L)
      by (unfold W, window; rewrite length_slice; lia).
    assert (Hn : Z.to_nat (K + 1) * gn <= length subsequence) by nia.
    destruct (fragments_pigeonhole A eq_dec subsequence W gn (Z.to_nat (K + 1))
                ltac:(fold L; lia) Hn) as [(k & Hk & Hfrag)|Hcontra].
    2:{ pose proof (mismatches_firstn A eq_dec (Z.to_nat (K + 1) * gn)
                      subsequence W). fold W in Hmis. lia. }
    exists (g * Z.of_nat k)%Z. split.
    { apply in_map_iff. exists k. split; [reflexivity|].
      apply in_seq. lia. }
    rewrite Hfn. fold gn.
    assert (Hkgn : k * gn + gn <= L) by nia.
    unfold W, window in Hfrag.
    rewrite slice_slice in Hfrag by lia.
    unfold ngram_fragment_matches. apply keep_some_In.
    exists (s + gn * k). split.
    + apply search_exact_In.
      rewrite length_slice by (fold L; lia).
      replace (gn * k + gn - gn * k) with gn by lia.
      split; [lia|]. split; [lia|]. split; [fold L; lia|].
      replace (gn * k) with (k * gn) by lia.
      symmetry. rewrite Hfrag. f_equal; lia.
    + rewrite ngram_hit_spec.
      * replace (s + gn * k - gn * k) with s by lia.
        fold L. fold W. fold W in Hmis. destruct (Z.leb_spec (Z.of_nat (mismatches eq_dec
                                   subsequence W)) K); [reflexivity|lia].
      * exact HK.
      * fold L; lia.
      * lia.
      * fold L; lia.
      * replace (gn * k) with (k * gn) by lia.
        symmetry. rewrite Hfrag. f_equal; lia.
Qed.

End NgramSpec.

(** ** Deduplication and sorting *)

Lemma NoDup_start_inj (l : list Match) m1 m2 :
  NoDup (map start l) -> In m1 l -> In m2 l -> start m1 = start m2 -> m1 = m2.
Proof.
  induction l as [|x l IH]; simpl; [tauto|].
  intros Hnd H1 H2 Hs. inversion Hnd as [|? ? Hx Hnd']; subst.
  destruct H1 as [<-|H1], H2 as [<-|H2]; auto.
  - exfalso. apply Hx. rewrite Hs. now apply in_map.
  - exfalso. apply Hx. rewrite <- Hs. now apply in_map.
Qed.

Lemma find_start_in (l : list Match) s :
  In s (map start l) <-> exists m, find (fun m => start m =? s) l = Some m.
Proof.
  split.
  - intros Hs. destruct (find (fun m => start m =? s) l) as [m|] eqn:E;
      [now exists m|].
    apply in_map_iff in Hs as (m & Hm & Hin).
    pose proof (find_none _ _ E m Hin) as Hf. simpl in Hf.
    apply Nat.eqb_neq in Hf. congruence.
  - intros (m & Hm). apply find_some in Hm as [Hin Hm].
    apply Nat.eqb_eq in Hm. subst. now apply in_map.
Qed.

Lemma find_app_match (l1 l2 : list Match) f :
  find f (l1 ++ l2) = match find f l1 with Some m => Some m | None => find f l2 end.
Proof. induction l1 as [|x l1 IH]; simpl; [reflexivity|]. now destruct (f x). Qed.

Lemma dedup_fold_spec ms seen acc :
  (forall x, In x seen <-> In x (map start acc)) ->
  NoDup (map start acc) ->
  NoDup (map start (snd (fold_left dedup_step ms (seen, acc)))) /\
  (forall s, find (fun m => start m =? s) (snd (fold_left dedup_step ms (seen, acc)))
             = match find (fun m => start m =? s) acc with
               | Some m => Some m
               | None => find (fun m => start m =? s) ms
               end) /\
  (forall m, In m (snd (fold_left dedup_step ms (seen, acc))) ->
             In m acc \/ In m ms).
Proof.
  revert seen acc; induction ms as [|m ms IH]; intros seen acc Hseen Hnd;
    cbn [fold_left].
  - split; [exact Hnd|]. split; [|tauto].
    intros s. simpl. now destruct (find _ acc).
  - change (dedup_step (seen, acc) m) with
      (if existsb (Nat.eqb (start m)) seen then (seen, acc)
       else (start m :: seen, acc ++ [m])).
    destruct (existsb (Nat.eqb (start m)) seen) eqn:Ex.
    + destruct (IH seen acc Hseen Hnd) as (H1 & H2 & H3).
      split; [exact H1|]. split.
      * intros s. rewrite H2. simpl.
        destruct (find (fun m => start m =? s) acc) as [m'|] eqn:Ea; auto.
        destruct (Nat.eqb_spec (start m) s) as [<-|]; auto.
        apply existsb_exists in Ex as (x & Hx & Hmx).
        apply Nat.eqb_eq in Hmx. subst x.
        apply Hseen, find_start_in in Hx as (m'' & Hm''). congruence.
      * intros m' Hm'. destruct (H3 m' Hm'); simpl; auto.
    + assert (Hnot : ~ In (start m) (map start acc)).
      { intros Hin. apply Hseen in Hin.
        assert (existsb (Nat.eqb (start m)) seen = true)
          by (apply existsb_exists; exists (start m); split;
              [exact Hin|apply Nat.eqb_refl]).
        congruence. }
      destruct (IH (start m :: seen) (acc ++ [m])) as (H1 & H2 & H3).
      { intros x. rewrite map_app, in_app_iff. simpl. rewrite Hseen. tauto. }
      { rewrite map_app. simpl.
        apply (Permutation_NoDup (Permutation_cons_append _ _)).
        now constructor. }
      split; [exact H1|]. split.
      * intros s. rewrite H2, find_app_match. simpl.
        destruct (find (fun m => start m =? s) acc); auto.
        destruct (start m =? s); reflexivity.
      * intros m' Hm'. destruct (H3 m' Hm') as [Ha|Hb]; simpl.
        -- apply in_app_iff in Ha as [Ha|[<-|[]]]; auto.
        -- auto.
Qed.

Lemma dedup_by_start_spec ms :
  NoDup (map start (dedup_by_start ms)) /\
  (forall s, find (fun m => start m =? s) (dedup_by_start ms)
             = find (fun m => start m =? s) ms) /\
  (forall m, In m (dedup_by_start ms) -> In m ms).
Proof.
  destruct (dedup_fold_spec ms [] []) as (H1 & H2 & H3).
  - simpl. tauto.
  - constructor.
  - unfold dedup_by_start. split; [exact H1|]. split; [exact H2|].
    intros m Hm. destruct (H3 m Hm) as [[]|]; auto.
Qed.

Lemma insert_by_start_perm m ms : Permutation (m :: ms) (insert_by_start m ms).
Proof.
  induction ms as [|x ms IH]; simpl; [reflexivity|].
  destruct (start m <=? start x); [reflexivity|].
  etransitivity; [apply perm_swap|]. now apply perm_skip.
Qed.

Lemma sort_by_start_perm ms : Permutation ms (sort_by_start ms).
Proof.
  induction ms as [|m ms IH]; simpl; [reflexivity|].
  etransitivity; [apply perm_skip, IH|]. apply insert_by_start_perm.
Qed.

Lemma insert_by_start_sorted m ms :
  Sorted (fun a b => start a < start b) ms -> ~ In (start m) (map start ms) ->
  Sorted (fun a b => start a < start b) (insert_by_start m ms).
Proof.
  induction ms as [|x ms IH]; intros Hs Hn; simpl; [repeat constructor|].
  assert (Hx : start m <> start x) by (intros E; apply Hn; simpl; auto).
  destruct (Nat.leb_spec (start m) (start x)).
  - constructor; [exact Hs|]. constructor. lia.
  - apply Sorted_inv in Hs as [Hs Hhd].
    constructor.
    + apply IH; [exact Hs|]. intros Hin. apply Hn. simpl. auto.
    + destruct ms as [|y ms]; simpl.
      * constructor. lia.
      * destruct (start m <=? start y); constructor; [lia|].
        now inversion Hhd.
Qed.

Lemma sort_by_start_sorted ms :
  NoDup (map start ms) -> Sorted (fun a b => start a < start b) (sort_by_start ms).
Proof.
  induction ms as [|m ms IH]; intros Hnd; simpl; [constructor|].
  inversion Hnd as [|? ? Hm Hnd']; subst.
  apply insert_by_start_sorted; [now apply IH|].
  intros Hin. apply Hm.
  apply (Permutation_in _ (Permutation_map start
           (Permutation_sym (sort_by_start_perm ms)))).
  exact Hin.
Qed.

Lemma find_start_perm (l1 l2 : list Match) s :
  Permutation l1 l2 -> NoDup (map start l1) ->
  find (fun m => start m =? s) l1 = find (fun m => start m =? s) l2.
Proof.
  intros Hp Hnd.
  assert (Hnd2 : NoDup (map start l2))
    by (apply (Permutation_NoDup (Permutation_map start Hp)); exact Hnd).
  destruct (find (fun m => start m =? s) l1) as [m1|] eqn:E1,
    (find (fun m => start m =? s) l2) as [m2|] eqn:E2; auto.
  - apply find_some in E1 as [I1 S1], E2 as [I2 S2].
    apply Nat.eqb_eq in S1, S2. f_equal.
    apply (NoDup_start_inj l2); auto; [|congruence].
    now apply (Permutation_in _ Hp).
  - apply find_some in E1 as [I1 S1].
    pose proof (find_none _ _ E2 m1 (Permutation_in _ Hp I1)). congruence.
  - apply find_some in E2 as [I2 S2].
    pose proof (find_none _ _ E1 m2 (Permutation_in _ (Permutation_sym Hp) I2)).
    congruence.
Qed.

Lemma nil_of_no_member {T : Type} (l : list T) : (forall x, ~ In x l) -> l = [].
Proof. destruct l as [|x l]; auto. intros H. exfalso. apply (H x). now left. Qed.

Lemma filter_all_true {T : Type} (f : T -> bool) l :
  (forall x, In x l -> f x = true) -> filter f l = l.
Proof.
  induction l as [|x l IH]; intros H; simpl; auto.
  rewrite H by (now left). rewrite IH; auto. intros y Hy. apply H. now right.
Qed.

Section Combined.

Variable A : Type.
Variable eq_dec : forall x y : A, {x = y} + {x <> y}.

Lemma mismatches_le_length (xs ys : list A) :
  mismatches eq_dec xs ys <= length xs.
Proof.
  revert ys; induction xs as [|x xs IH]; intros [|y ys]; simpl; try lia.
  specialize (IH ys). destruct (eq_dec x y); lia.
Qed.

Lemma reference_match_invariant subsequence sequence K s :
  In s (valid_starts eq_dec subsequence sequence K) ->
  match_invariant eq_dec subsequence sequence K
    (reference_match eq_dec subsequence sequence s).
Proof.
  intros Hs. apply valid_starts_In in Hs as [HN Hk].
  unfold match_invariant, reference_match; simpl.
  split; [lia|]. split; [lia|]. split; [reflexivity|exact Hk].
Qed.

(** The exact fast path of the dispatcher finds the windows with no
    mismatch. *)
Lemma exact_path_spec (subsequence sequence : list A) s :
  subsequence <> [] ->
  In s (search_exact eq_dec subsequence sequence 0
                     (Z.of_nat (length sequence))) <->
  In s (valid_starts eq_dec subsequence sequence 0).
Proof.
  intros Hne.
  assert (HL : 1 <= length subsequence)
    by (destruct subsequence; [congruence|simpl; lia]).
  rewrite search_exact_In, valid_starts_In. unfold window.
  split.
  - intros (_ & _ & H3 & H4). split; [lia|]. rewrite H4.
    replace (mismatches eq_dec subsequence subsequence) with 0
      by (symmetry; now apply mismatches_zero_iff). lia.
  - intros [HN Hm]. assert (Hz : mismatches eq_dec subsequence
      (slice sequence s (s + length subsequence)) = 0) by lia.
    apply mismatches_zero_iff in Hz; [|rewrite length_slice; lia].
    split; [lia|]. split; [lia|]. split; [lia|]. now symmetry.
Qed.

(** The n-gram entry point and its raw enumeration, together. *)
Lemma ngrams_spec (subsequence sequence : list A) K :
  (0 <= K)%Z -> (K < Z.of_nat (length subsequence))%Z ->
  exists raw out,
    find_near_matches_substitutions_ngrams_raw eq_dec subsequence sequence K
    = Ok raw /\
    find_near_matches_substitutions_ngrams eq_dec subsequence sequence K
    = Ok out /\
    (forall m, In m raw <->
       exists s, In s (valid_starts eq_dec subsequence sequence K) /\
                 m = reference_match eq_dec subsequence sequence s) /\
    NoDup (map start out) /\
    Sorted (fun a b => start a < start b) out /\
    (forall s, find (fun m => start m =? s) out
               = find (fun m => start m =? s) raw) /\
    (forall m, In m out -> In m raw).
Proof.
  intros HK HKL.
  destruct (ngrams_raw_spec A eq_dec subsequence sequence K HK HKL)
    as (raw & Eraw & Hraw).
  destruct (dedup_by_start_spec raw) as (Hnd & Hfind & Hsub).
  exists raw, (sort_by_start (dedup_by_start raw)).
  unfold find_near_matches_substitutions_ngrams. rewrite Eraw.
  split; [reflexivity|]. split; [reflexivity|]. split; [exact Hraw|].
  split; [|split; [|split]].
  - apply (Permutation_NoDup (Permutation_map start (sort_by_start_perm _))).
    exact Hnd.
  - now apply sort_by_start_sorted.
  - intros s. rewrite <- (find_start_perm _ _ s (sort_by_start_perm _) Hnd).
    apply Hfind.
  - intros m Hm. apply Hsub.
    exact (Permutation_in _ (Permutation_sym (sort_by_start_perm _)) Hm).
Qed.

(** With a budget of [-2] or less the fragment length is negative and the
    fragment range is empty. *)
Lemma ngrams_raw_negative (subsequence sequence : list A) K :
  subsequence <> [] -> (K <= -2)%Z ->
  find_near_matches_substitutions_ngrams_raw eq_dec subsequence sequence K
  = Ok [].
Proof.
  intros Hne HK.
  assert (HL : (1 <= Z.of_nat (length subsequence))%Z)
    by (destruct subsequence; [congruence|simpl; lia]).
  unfold find_near_matches_substitutions_ngrams_raw, ngram_length.
  replace (K + 1 =? 0)%Z with false by (symmetry; apply Z.eqb_neq; lia).
  cbn [bind].
  set (g := (Z.of_nat (length subsequence) / (K + 1))%Z).
  assert (Hg : (g < 0)%Z).
  { pose proof (Z_mult_div_ge_neg (Z.of_nat (length subsequence)) (K + 1)
                  ltac:(lia)). fold g in H. nia. }
  replace (g =? 0)%Z with false by (symmetry; apply Z.eqb_neq; lia).
  unfold ngram_starts, py_range.
  replace (0 <? g)%Z with false by (symmetry; apply Z.ltb_ge; lia).
  assert (Hq : ((0 - (Z.of_nat (length subsequence) - g + 1) - g - 1) / - g
                < 0)%Z) by (apply Z.div_lt_upper_bound; lia).
  replace (Z.to_nat ((0 - (Z.of_nat (length subsequence) - g + 1) - g - 1)
                     / - g)) with 0 by lia.
  reflexivity.
Qed.

Lemma ngrams_members (subsequence sequence : list A) K :
  (0 <= K)%Z -> (K < Z.of_nat (length subsequence))%Z ->
  exists raw out,
    find_near_matches_substitutions_ngrams_raw eq_dec subsequence sequence K
    = Ok raw /\
    find_near_matches_substitutions_ngrams eq_dec subsequence sequence K
    = Ok out /\
    (forall m, In m raw <->
       exists s, In s (valid_starts eq_dec subsequence sequence K) /\
                 m = reference_match eq_dec subsequence sequence s) /\
    (forall m, In m out <-> In m raw).
Proof.
  intros HK HKL.
  destruct (ngrams_spec subsequence sequence K HK HKL)
    as (raw & out & Eraw & Eout & Hraw & _ & _ & Hfind & Hsub).
  exists raw, out. split; [exact Eraw|]. split; [exact Eout|].
  split; [exact Hraw|]. intros m. split; [apply Hsub|].
  intros Hm.
  assert (Hs : In (start m) (map start raw)) by (now apply in_map).
  apply find_start_in in Hs as (m0 & Hm0).
  rewrite <- Hfind in Hm0.
  assert (Hm0' := Hm0). apply find_some in Hm0' as [Hin0 Hst0].
  apply Nat.eqb_eq in Hst0.
  apply Hraw in Hm as (s & _ & ->).
  destruct (proj1 (Hraw m0) (Hsub m0 Hin0)) as (s0 & _ & ->).
  simpl in Hst0. subst s0. exact Hin0.
Qed.

Lemma dispatcher_unfold (subsequence sequence : list A) K :
  subsequence <> [] ->
  find_near_matches_substitutions eq_dec subsequence sequence K =
  if (K <? 0)%Z then Err NegativeBudget
  else if (K =? 0)%Z then
    Ok (map (fun start_index =>
               mkMatch start_index (start_index + length subsequence) 0)
            (search_exact eq_dec subsequence sequence 0
                          (Z.of_nat (length sequence))))
  else if (3 <=? Z.of_nat (length subsequence) / (K + 1))%Z
  then find_near_matches_substitutions_ngrams eq_dec subsequence sequence K
  else find_near_matches_substitutions_linear_programming eq_dec
         subsequence sequence K.
Proof. intros Hne. destruct subsequence; [congruence|reflexivity]. Qed.

Lemma map_start_reference (subsequence sequence : list A) l :
  map start (map (reference_match eq_dec subsequence sequence) l) = l.
Proof. rewrite map_map. apply map_id. Qed.

Lemma map_start_exact (l : list nat) n :
  map start (map (fun start_index => mkMatch start_index (start_index + n) 0) l)
  = l.
Proof. induction l as [|x l IH]; simpl; congruence. Qed.

Lemma exact_match_reference (subsequence sequence : list A) s :
  In s (valid_starts eq_dec subsequence sequence 0) ->
  mkMatch s (s + length subsequence) 0
  = reference_match eq_dec subsequence sequence s.
Proof.
  intros Hs. apply valid_starts_In in Hs as [_ Hk].
  unfold reference_match. f_equal. lia.
Qed.

Lemma map_reference_invariant (subsequence sequence : list A) K m :
  In m (map (reference_match eq_dec subsequence sequence)
            (valid_starts eq_dec subsequence sequence K)) ->
  match_invariant eq_dec subsequence sequence K m.
Proof.
  intros Hm. apply in_map_iff in Hm as (s & <- & Hs).
  now apply reference_match_invariant.
Qed.

Lemma valid_starts_short (subsequence sequence : list A) K :
  length sequence < length subsequence ->
  valid_starts eq_dec subsequence sequence K = [].
Proof.
  intros Hlt. apply nil_of_no_member. intros s Hs.
  apply valid_starts_In in Hs as [Hs _]. lia.
Qed.

Lemma valid_starts_negative (subsequence sequence : list A) K :
  (K < 0)%Z -> valid_starts eq_dec subsequence sequence K = [].
Proof.
  intros HK. apply nil_of_no_member. intros s Hs.
  apply valid_starts_In in Hs as [_ Hs]. lia.
Qed.

Lemma ngram_route_budget (subsequence : list A) K :
  (0 <= K)%Z -> (3 <= Z.of_nat (length subsequence) / (K + 1))%Z ->
  (K < Z.of_nat (length subsequence))%Z.
Proof.
  intros HK H3.
  pose proof (Z.mul_div_le (Z.of_nat (length subsequence)) (K + 1)
                ltac:(lia)). nia.
Qed.

End Combined.

(** * Properties of the entry points *)

Section EntryPointProperties.

Variable A : Type.
Variable eq_dec : forall x y : A, {x = y} + {x <> y}.

(** C1: for a non-empty subsequence and a budget [K >= 0], the dispatcher
    succeeds and the start indexes of its matches are exactly the window
    starts whose mismatch count against the subsequence is at most [K]. *)
Theorem dispatcher_starts_are_valid_windows (subsequence sequence : list A) K :
  subsequence <> [] -> (0 <= K)%Z ->
  exists ms,
    find_near_matches_substitutions eq_dec subsequence sequence K = Ok ms /\
    forall s, In s (map start ms) <->
              In s (valid_starts eq_dec subsequence sequence K).
Proof.
  intros Hne HK.
  rewrite (dispatcher_unfold A eq_dec _ _ _ Hne).
  replace (K <? 0)%Z with false by (symmetry; apply Z.ltb_ge; lia).
  destruct (Z.eqb_spec K 0) as [HK0|HK0].
  - subst K. eexists; split; [reflexivity|]. intros s.
    rewrite map_start_exact. now apply exact_path_spec.
  - destruct (Z.leb_spec 3 (Z.of_nat (length subsequence) / (K + 1)))
      as [H3|H3].
    + pose proof (ngram_route_budget A subsequence K HK H3) as HKL.
      destruct (ngrams_members A eq_dec subsequence sequence K HK HKL)
        as (raw & out & _ & Eo & Hraw & Hout).
      exists out. split; [exact Eo|]. intros s. rewrite in_map_iff. split.
      * intros (m & <- & Hm). apply Hout, Hraw in Hm as (s' & Hs' & ->).
        exact Hs'.
      * intros Hs. exists (reference_match eq_dec subsequence sequence s).
        split; [reflexivity|]. apply Hout, Hraw. eauto.
    + eexists. split.
      * now apply linear_programming_spec.
      * intros s. now rewrite map_start_reference.
Qed.

(** C2: for [0 <= K < len(subsequence)] the ring-counter matcher, the raw
    n-gram enumeration and the deduplicated n-gram entry point all succeed
    and yield the same set of (start, dist) pairs. *)
Theorem linear_and_ngrams_same_pairs (subsequence sequence : list A) K :
  (0 <= K)%Z -> (K < Z.of_nat (length subsequence))%Z ->
  exists lin raw out,
    find_near_matches_substitutions_linear_programming eq_dec
      subsequence sequence K = Ok lin /\
    find_near_matches_substitutions_ngrams_raw eq_dec
      subsequence sequence K = Ok raw /\
    find_near_matches_substitutions_ngrams eq_dec
      subsequence sequence K = Ok out /\
    forall s d,
      (In (s, d) (map (fun m => (start m, dist m)) lin) <->
       In (s, d) (map (fun m => (start m, dist m)) raw)) /\
      (In (s, d) (map (fun m => (start m, dist m)) lin) <->
       In (s, d) (map (fun m => (start m, dist m)) out)).
Proof.
  intros HK HKL.
  assert (Hne : subsequence <> [])
    by (intros E; subst subsequence; simpl in HKL; lia).
  destruct (ngrams_members A eq_dec subsequence sequence K HK HKL)
    as (raw & out & Er & Eo & Hraw & Hout).
  exists (map (reference_match eq_dec subsequence sequence)
              (valid_starts eq_dec subsequence sequence K)), raw, out.
  split; [now apply linear_programming_spec|].
  split; [exact Er|]. split; [exact Eo|].
  assert (Hlr : forall p,
    In p (map (fun m => (start m, dist m))
              (map (reference_match eq_dec subsequence sequence)
                   (valid_starts eq_dec subsequence sequence K))) <->
    In p (map (fun m => (start m, dist m)) raw)).
  { intros p. rewrite !in_map_iff. split.
    - intros (m & <- & Hm). apply in_map_iff in Hm as (s & <- & Hs).
      exists (reference_match eq_dec subsequence sequence s).
      split; [reflexivity|]. apply Hraw. eauto.
    - intros (m & <- & Hm). apply Hraw in Hm as (s & Hs & ->).
      exists (reference_match eq_dec subsequence sequence s).
      split; [reflexivity|]. now apply in_map. }
  intros s d. split; [apply Hlr|]. rewrite Hlr, !in_map_iff.
  split; intros (m & E & Hm); exists m; split; auto; apply Hout; auto.
Qed.

(** C3: when the budget [K >= 0] gives a fragment length
    [g = len(subsequence) // (K + 1) >= 1], the fragment loop visits the
    starts [0, g, 2g, ...], exactly [len(subsequence) // g] of them; that is
    at least [K + 1], and exactly [K + 1] if and only if
    [len(subsequence) < (K + 2) * g]. *)
Theorem ngram_fragment_count (subseq_len : nat) K g :
  (0 <= K)%Z -> ngram_length subseq_len K = Ok g -> (1 <= g)%Z ->
  ngram_starts subseq_len g
  = map (fun k => (g * Z.of_nat k)%Z)
        (seq 0 (Z.to_nat (Z.of_nat subseq_len / g))) /\
  Z.of_nat (length (ngram_starts subseq_len g)) = (Z.of_nat subseq_len / g)%Z /\
  (K + 1 <= Z.of_nat (length (ngram_starts subseq_len g)))%Z /\
  (Z.of_nat (length (ngram_starts subseq_len g)) = (K + 1)%Z <->
   (Z.of_nat subseq_len < (K + 2) * g)%Z).
Proof.
  intros HK Hlen Hg.
  rewrite ngram_length_ok in Hlen by exact HK.
  injection Hlen as Hgdef.
  assert (Hstarts := ngram_starts_spec subseq_len g ltac:(lia)).
  assert (Hcount : Z.of_nat (length (ngram_starts subseq_len g))
                   = (Z.of_nat subseq_len / g)%Z).
  { rewrite Hstarts, length_map, length_seq.
    apply Z2Nat.id. apply Z.div_pos; lia. }
  assert (Hlow : (K + 1 <= Z.of_nat subseq_len / g)%Z).
  { apply Z.div_le_lower_bound; [lia|].
    pose proof (Z.mul_div_le (Z.of_nat subseq_len) (K + 1) ltac:(lia)).
    rewrite Hgdef in H. lia. }
  split; [exact Hstarts|]. split; [exact Hcount|].
  rewrite Hcount. split; [exact Hlow|]. split.
  - intros Hq.
    pose proof (Z.div_mod (Z.of_nat subseq_len) g ltac:(lia)) as Hdm.
    pose proof (Z.mod_pos_bound (Z.of_nat subseq_len) g ltac:(lia)) as Hb.
    rewrite Hq in Hdm. nia.
  - intros Hlt.
    assert (Hup : (Z.of_nat subseq_len / g < K + 2)%Z)
      by (apply Z.div_lt_upper_bound; lia).
    lia.
Qed.

(** C4: with a negative budget only the dispatcher raises [NegativeBudget];
    the ring-counter matcher returns no match, and the n-gram entry points
    raise a division by zero for [K = -1] and return no match (resp.
    [False]) for [K <= -2]. *)
Theorem negative_budget_behaviour (subsequence sequence : list A) K :
  subsequence <> [] -> (K < 0)%Z ->
  find_near_matches_substitutions eq_dec subsequence sequence K
  = Err NegativeBudget /\
  find_near_matches_substitutions_linear_programming eq_dec
    subsequence sequence K = Ok [] /\
  ((K = -1)%Z ->
   find_near_matches_substitutions_ngrams eq_dec subsequence sequence K
   = Err ZeroDivisionError /\
   has_near_match_substitutions_ngrams eq_dec subsequence sequence K
   = Err ZeroDivisionError) /\
  ((K <= -2)%Z ->
   find_near_matches_substitutions_ngrams eq_dec subsequence sequence K
   = Ok [] /\
   has_near_match_substitutions_ngrams eq_dec subsequence sequence K
   = Ok false).
Proof.
  intros Hne HK.
  split.
  { rewrite (dispatcher_unfold A eq_dec _ _ _ Hne).
    now replace (K <? 0)%Z with true by (symmetry; now apply Z.ltb_lt). }
  split.
  { rewrite (linear_programming_spec A eq_dec _ _ _ Hne).
    now rewrite (valid_starts_negative A eq_dec _ _ _ HK). }
  split.
  - intros ->. split; reflexivity.
  - intros HK2.
    unfold find_near_matches_substitutions_ngrams,
           has_near_match_substitutions_ngrams.
    rewrite (ngrams_raw_negative A eq_dec _ _ _ Hne HK2).
    split; reflexivity.
Qed.

(** C5: with an empty subsequence every entry point fails before producing
    output: the dispatcher and the ring-counter matcher with
    [EmptySubsequence], the n-gram entry points with [BudgetExceedsLength]
    (the fragment length is zero), or with a division by zero when
    [K = -1]. *)
Theorem empty_subsequence_errors (sequence : list A) K :
  find_near_matches_substitutions eq_dec [] sequence K
  = Err EmptySubsequence /\
  find_near_matches_substitutions_linear_programming eq_dec [] sequence K
  = Err EmptySubsequence /\
  ((K <> -1)%Z ->
   find_near_matches_substitutions_ngrams eq_dec [] sequence K
   = Err BudgetExceedsLength /\
   has_near_match_substitutions_ngrams eq_dec [] sequence K
   = Err BudgetExceedsLength) /\
  ((K = -1)%Z ->
   find_near_matches_substitutions_ngrams eq_dec [] sequence K
   = Err ZeroDivisionError /\
   has_near_match_substitutions_ngrams eq_dec [] sequence K
   = Err ZeroDivisionError).
Proof.
  split; [reflexivity|]. split; [reflexivity|]. split.
  - intros HK.
    unfold find_near_matches_substitutions_ngrams,
           has_near_match_substitutions_ngrams,
           find_near_matches_substitutions_ngrams_raw, ngram_length.
    replace (K + 1 =? 0)%Z with false by (symmetry; apply Z.eqb_neq; lia).
    cbn [bind length Z.of_nat]. rewrite Z.div_0_l by lia.
    split; reflexivity.
  - intros ->. split; reflexivity.
Qed.

(** C6: for a non-empty subsequence and [K >= 0] every match returned by
    the dispatcher, by the ring-counter matcher and (when
    [K < len(subsequence)]) by the raw and deduplicated n-gram matchers
    lies within the sequence, spans [len(subsequence)] elements, carries
    its true mismatch count as [dist], and has [dist <= K]. *)
Theorem returned_matches_invariant (subsequence sequence : list A) K :
  subsequence <> [] -> (0 <= K)%Z ->
  (exists ms,
     find_near_matches_substitutions eq_dec subsequence sequence K = Ok ms /\
     forall m, In m ms -> match_invariant eq_dec subsequence sequence K m) /\
  (exists ms,
     find_near_matches_substitutions_linear_programming eq_dec
       subsequence sequence K = Ok ms /\
     forall m, In m ms -> match_invariant eq_dec subsequence sequence K m) /\
  ((K < Z.of_nat (length subsequence))%Z ->
   (exists ms,
      find_near_matches_substitutions_ngrams_raw eq_dec
        subsequence sequence K = Ok ms /\
      forall m, In m ms -> match_invariant eq_dec subsequence sequence K m) /\
   (exists ms,
      find_near_matches_substitutions_ngrams eq_dec
        subsequence sequence K = Ok ms /\
      forall m, In m ms -> match_invariant eq_dec subsequence sequence K m)).
Proof.
  intros Hne HK.
  assert (Hng : (K < Z.of_nat (length subsequence))%Z ->
   (exists ms,
      find_near_matches_substitutions_ngrams_raw eq_dec
        subsequence sequence K = Ok ms /\
      forall m, In m ms -> match_invariant eq_dec subsequence sequence K m) /\
   (exists ms,
      find_near_matches_substitutions_ngrams eq_dec
        subsequence sequence K = Ok ms /\
      forall m, In m ms -> match_invariant eq_dec subsequence sequence K m)).
  { intros HKL.
    destruct (ngrams_members A eq_dec subsequence sequence K HK HKL)
      as (raw & out & Er & Eo & Hraw & Hout).
    split.
    - exists raw. split; [exact Er|]. intros m Hm.
      apply Hraw in Hm as (s & Hs & ->).
      now apply reference_match_invariant.
    - exists out. split; [exact Eo|]. intros m Hm.
      apply Hout, Hraw in Hm as (s & Hs & ->).
      now apply reference_match_invariant. }
  assert (Hlin : exists ms,
     find_near_matches_substitutions_linear_programming eq_dec
       subsequence sequence K = Ok ms /\
     forall m, In m ms -> match_invariant eq_dec subsequence sequence K m).
  { eexists. split; [now apply linear_programming_spec|].
    intros m Hm. now apply map_reference_invariant in Hm. }
  split; [|split; [exact Hlin|exact Hng]].
  rewrite (dispatcher_unfold A eq_dec _ _ _ Hne).
  replace (K <? 0)%Z with false by (symmetry; apply Z.ltb_ge; lia).
  destruct (Z.eqb_spec K 0) as [HK0|HK0].
  - subst K. eexists; split; [reflexivity|]. intros m Hm.
    apply in_map_iff in Hm as (s & <- & Hs).
    apply exact_path_spec in Hs; [|exact Hne].
    rewrite (exact_match_reference A eq_dec _ _ _ Hs).
    now apply reference_match_invariant.
  - destruct (Z.leb_spec 3 (Z.of_nat (length subsequence) / (K + 1)))
      as [H3|H3].
    + exact (proj2 (Hng (ngram_route_budget A subsequence K HK H3))).
    + exact Hlin.
Qed.

(** C7: for [0 <= K < len(subsequence)] the n-gram entry point returns
    matches with pairwise distinct starts, sorted by increasing start; for
    each start it keeps the first match of that start in the raw
    enumeration, and all raw matches with the same start are equal. *)
Theorem ngrams_unique_sorted_first (subsequence sequence : list A) K :
  (0 <= K)%Z -> (K < Z.of_nat (length subsequence))%Z ->
  exists raw out,
    find_near_matches_substitutions_ngrams_raw eq_dec subsequence sequence K
    = Ok raw /\
    find_near_matches_substitutions_ngrams eq_dec subsequence sequence K
    = Ok out /\
    NoDup (map start out) /\
    Sorted (fun a b => start a < start b) out /\
    (forall s, find (fun m => start m =? s) out
               = find (fun m => start m =? s) raw) /\
    (forall m1 m2, In m1 raw -> In m2 raw -> start m1 = start m2 -> m1 = m2).
Proof.
  intros HK HKL.
  destruct (ngrams_spec A eq_dec subsequence sequence K HK HKL)
    as (raw & out & Er & Eo & Hraw & Hnd & Hsorted & Hfind & _).
  exists raw, out. split; [exact Er|]. split; [exact Eo|].
  split; [exact Hnd|]. split; [exact Hsorted|]. split; [exact Hfind|].
  intros m1 m2 H1 H2 Hst.
  apply Hraw in H1 as (s1 & _ & ->). apply Hraw in H2 as (s2 & _ & ->).
  simpl in Hst. now subst s2.
Qed.

(** C8: for [0 <= K < len(subsequence)] the n-gram existence test succeeds
    and answers [True] exactly when the raw enumeration yields a first
    match; this holds exactly when some window has at most [K]
    mismatches, and exactly when the n-gram entry point returns a
    non-empty list. *)
Theorem has_ngrams_iff_nonempty (subsequence sequence : list A) K :
  (0 <= K)%Z -> (K < Z.of_nat (length subsequence))%Z ->
  exists b raw out,
    has_near_match_substitutions_ngrams eq_dec subsequence sequence K = Ok b /\
    find_near_matches_substitutions_ngrams_raw eq_dec subsequence sequence K
    = Ok raw /\
    find_near_matches_substitutions_ngrams eq_dec subsequence sequence K
    = Ok out /\
    (b = true <-> raw <> []) /\
    (b = true <-> valid_starts eq_dec subsequence sequence K <> []) /\
    (b = true <-> out <> []).
Proof.
  intros HK HKL.
  destruct (ngrams_members A eq_dec subsequence sequence K HK HKL)
    as (raw & out & Er & Eo & Hraw & Hout).
  assert (Hb : (match raw with [] => false | _ :: _ => true end = true)
               <-> raw <> []) by (destruct raw; split; congruence).
  assert (Hrv : raw <> [] <-> valid_starts eq_dec subsequence sequence K <> []).
  { split; intros H E; apply H; apply nil_of_no_member; intros x Hx.
    - apply Hraw in Hx as (s & Hs & _). rewrite E in Hs. exact Hs.
    - assert (Hin : In (reference_match eq_dec subsequence sequence x) raw)
        by (apply Hraw; eauto).
      rewrite E in Hin. exact Hin. }
  assert (Hro : raw <> [] <-> out <> []).
  { split; intros H E; apply H; apply nil_of_no_member; intros x Hx.
    - apply Hout in Hx. rewrite E in Hx. exact Hx.
    - apply Hout in Hx. rewrite E in Hx. exact Hx. }
  exists (match raw with [] => false | _ :: _ => true end), raw, out.
  split.
  { unfold has_near_match_substitutions_ngrams. rewrite Er.
    cbn [bind]. destruct raw; reflexivity. }
  split; [exact Er|]. split; [exact Eo|].
  rewrite <- Hrv, <- Hro. tauto.
Qed.

(** C9: for a non-empty subsequence no longer than the sequence and a
    budget [K >= len(subsequence)], the dispatcher routes the call to the
    ring-counter matcher, raises no error, and returns one match for every
    window start from [0] to [len(sequence) - len(subsequence)], in
    order. *)
Theorem large_budget_all_windows (subsequence sequence : list A) K :
  subsequence <> [] -> length subsequence <= length sequence ->
  (Z.of_nat (length subsequence) <= K)%Z ->
  find_near_matches_substitutions eq_dec subsequence sequence K
  = find_near_matches_substitutions_linear_programming eq_dec
      subsequence sequence K /\
  exists ms,
    find_near_matches_substitutions eq_dec subsequence sequence K = Ok ms /\
    map start ms = seq 0 (length sequence - length subsequence + 1).
Proof.
  intros Hne Hle HK.
  assert (HL : (1 <= Z.of_nat (length subsequence))%Z)
    by (destruct subsequence; [congruence|simpl; lia]).
  assert (Hroute : find_near_matches_substitutions eq_dec subsequence sequence K
                   = find_near_matches_substitutions_linear_programming eq_dec
                       subsequence sequence K).
  { rewrite (dispatcher_unfold A eq_dec _ _ _ Hne).
    replace (K <? 0)%Z with false by (symmetry; apply Z.ltb_ge; lia).
    replace (K =? 0)%Z with false by (symmetry; apply Z.eqb_neq; lia).
    rewrite (Z.div_small (Z.of_nat (length subsequence)) (K + 1))
      by lia.
    reflexivity. }
  split; [exact Hroute|].
  rewrite Hroute, (linear_programming_spec A eq_dec _ _ _ Hne).
  eexists. split; [reflexivity|].
  rewrite map_start_reference. unfold valid_starts.
  rewrite filter_all_true.
  - f_equal. lia.
  - intros x _. apply Z.leb_le.
    pose proof (mismatches_le_length A eq_dec subsequence
                  (window sequence x (length subsequence))). lia.
Qed.

(** C10: for a non-empty subsequence longer than the sequence, the
    dispatcher (for [K >= 0]) and the ring-counter matcher (for every [K])
    return no match, and the n-gram entry points return no match and
    [False] for every [K < len(subsequence)] other than [-1]. *)
Theorem short_sequence_no_matches (subsequence sequence : list A) K :
  subsequence <> [] -> length sequence < length subsequence ->
  ((0 <= K)%Z ->
   find_near_matches_substitutions eq_dec subsequence sequence K = Ok []) /\
  find_near_matches_substitutions_linear_programming eq_dec
    subsequence sequence K = Ok [] /\
  ((K < Z.of_nat (length subsequence))%Z -> (K <> -1)%Z ->
   find_near_matches_substitutions_ngrams eq_dec subsequence sequence K
   = Ok [] /\
   has_near_match_substitutions_ngrams eq_dec subsequence sequence K
   = Ok false).
Proof.
  intros Hne Hlt.
  pose proof (fun K => valid_starts_short A eq_dec subsequence sequence K Hlt)
    as Hv.
  assert (Hlin : find_near_matches_substitutions_linear_programming eq_dec
                   subsequence sequence K = Ok []).
  { rewrite (linear_programming_spec A eq_dec _ _ _ Hne). now rewrite Hv. }
  assert (Hng : (0 <= K)%Z -> (K < Z.of_nat (length subsequence))%Z ->
   find_near_matches_substitutions_ngrams eq_dec subsequence sequence K
   = Ok [] /\
   has_near_match_substitutions_ngrams eq_dec subsequence sequence K
   = Ok false).
  { intros HK HKL.
    destruct (ngrams_members A eq_dec subsequence sequence K HK HKL)
      as (raw & out & Er & Eo & Hraw & Hout).
    assert (Hr : raw = []).
    { apply nil_of_no_member. intros m Hm.
      apply Hraw in Hm as (s & Hs & _). rewrite Hv in Hs. exact Hs. }
    assert (Ho : out = []).
    { apply nil_of_no_member. intros m Hm.
      apply Hout in Hm. rewrite Hr in Hm. exact Hm. }
    subst raw out. split; [exact Eo|].
    unfold has_near_match_substitutions_ngrams. now rewrite Er. }
  split; [|split; [exact Hlin|]].
  - intros HK.
    rewrite (dispatcher_unfold A eq_dec _ _ _ Hne).
    replace (K <? 0)%Z with false by (symmetry; apply Z.ltb_ge; lia).
    destruct (Z.eqb_spec K 0) as [HK0|HK0].
    + subst K.
      replace (search_exact eq_dec subsequence sequence 0
                 (Z.of_nat (length sequence))) with (@nil nat).
      * reflexivity.
      * symmetry. apply nil_of_no_member. intros s Hs.
        apply exact_path_spec in Hs; [|exact Hne].
        rewrite Hv in Hs. exact Hs.
    + destruct (Z.leb_spec 3 (Z.of_nat (length subsequence) / (K + 1)))
        as [H3|H3].
      * exact (proj1 (Hng HK (ngram_route_budget A subsequence K HK H3))).
      * exact Hlin.
  - intros HKL HK1.
    destruct (Z.leb_spec 0 K) as [HK|HK]; [exact (Hng HK HKL)|].
    assert (HK2 : (K <= -2)%Z) by lia.
    unfold find_near_matches_substitutions_ngrams,
           has_near_match_substitutions_ngrams.
    rewrite (ngrams_raw_negative A eq_dec _ _ _ Hne HK2).
    split; reflexivity.
Qed.

End EntryPointProperties.

(** * Concrete instances *)

(** A subsequence of length 6 with budget 1 takes the n-gram path of the
    dispatcher (fragment length 3). *)
Lemma dispatcher_starts_are_valid_windows_witness :
  [1;2;3;4;5;6] <> [] /\ (0 <= 1)%Z /\
  exists ms,
    find_near_matches_substitutions Nat.eq_dec [1;2;3;4;5;6]
      [0;1;2;9;4;5;6;7] 1%Z = Ok ms /\
    forall s, In s (map start ms) <->
              In s (valid_starts Nat.eq_dec [1;2;3;4;5;6] [0;1;2;9;4;5;6;7] 1%Z).
Proof.
  split; [discriminate|]. split; [lia|].
  apply (dispatcher_starts_are_valid_windows nat Nat.eq_dec); [discriminate|lia].
Defined.

Lemma linear_and_ngrams_same_pairs_witness :
  (0 <= 1)%Z /\ (1 < Z.of_nat (length [1;2;3;4;5;6]))%Z /\
  exists lin raw out,
    find_near_matches_substitutions_linear_programming Nat.eq_dec
      [1;2;3;4;5;6] [0;1;2;9;4;5;6;7] 1%Z = Ok lin /\
    find_near_matches_substitutions_ngrams_raw Nat.eq_dec
      [1;2;3;4;5;6] [0;1;2;9;4;5;6;7] 1%Z = Ok raw /\
    find_near_matches_substitutions_ngrams Nat.eq_dec
      [1;2;3;4;5;6] [0;1;2;9;4;5;6;7] 1%Z = Ok out /\
    forall s d,
      (In (s, d) (map (fun m => (start m, dist m)) lin) <->
       In (s, d) (map (fun m => (start m, dist m)) raw)) /\
      (In (s, d) (map (fun m => (start m, dist m)) lin) <->
       In (s, d) (map (fun m => (start m, dist m)) out)).
Proof.
  split; [lia|]. split; [simpl; lia|].
  apply (linear_and_ngrams_same_pairs nat Nat.eq_dec); simpl; lia.
Defined.

Lemma ngram_fragment_count_witness :
  (0 <= 1)%Z /\ ngram_length 6 1 = Ok 3%Z /\ (1 <= 3)%Z /\
  ngram_starts 6 3
  = map (fun k => (3 * Z.of_nat k)%Z) (seq 0 (Z.to_nat (Z.of_nat 6 / 3))) /\
  Z.of_nat (length (ngram_starts 6 3)) = (Z.of_nat 6 / 3)%Z /\
  (1 + 1 <= Z.of_nat (length (ngram_starts 6 3)))%Z /\
  (Z.of_nat (length (ngram_starts 6 3)) = (1 + 1)%Z <->
   (Z.of_nat 6 < (1 + 2) * 3)%Z).
Proof.
  split; [lia|]. split; [reflexivity|]. split; [lia|].
  apply (ngram_fragment_count 6 1 3); [lia|reflexivity|lia].
Defined.

(** Five fragments of length one for a subsequence of length 5 and budget
    2: every fragment finds the exact occurrence, so the raw enumeration
    yields the same match five times. *)
Lemma ngram_fragment_count_counterexample :
  ngram_length 5 2 = Ok 1%Z /\ (Z.of_nat 5 mod 1 = 0)%Z /\
  length (ngram_starts 5 1) = 5 /\ 2 + 1 < length (ngram_starts 5 1) /\
  find_near_matches_substitutions_ngrams_raw Nat.eq_dec [1;2;3;4;5]
    [1;2;3;4;5] 2%Z = Ok (repeat (mkMatch 0 5 0) 5).
Proof.
  split; [reflexivity|]. split; [reflexivity|].
  assert (E : length (ngram_starts 5 1) = 5) by reflexivity.
  split; [exact E|]. split; [rewrite E; lia|].
  vm_compute. reflexivity.
Qed.

Lemma negative_budget_behaviour_witness :
  [1;2] <> [] /\ (-1 < 0)%Z /\
  find_near_matches_substitutions Nat.eq_dec [1;2] [1;2] (-1)%Z
  = Err NegativeBudget /\
  find_near_matches_substitutions_linear_programming Nat.eq_dec
    [1;2] [1;2] (-1)%Z = Ok [] /\
  ((-1 = -1)%Z ->
   find_near_matches_substitutions_ngrams Nat.eq_dec [1;2] [1;2] (-1)%Z
   = Err ZeroDivisionError /\
   has_near_match_substitutions_ngrams Nat.eq_dec [1;2] [1;2] (-1)%Z
   = Err ZeroDivisionError) /\
  ((-1 <= -2)%Z ->
   find_near_matches_substitutions_ngrams Nat.eq_dec [1;2] [1;2] (-1)%Z
   = Ok [] /\
   has_near_match_substitutions_ngrams Nat.eq_dec [1;2] [1;2] (-1)%Z
   = Ok false).
Proof.
  split; [discriminate|]. split; [lia|].
  apply (negative_budget_behaviour nat Nat.eq_dec); [discriminate|lia].
Defined.

(** With budget [-1] the ring-counter matcher returns an empty list and
    the n-gram entry point divides by zero; with [-2] the n-gram existence
    test answers [False]. None raises [NegativeBudget]. *)
Lemma negative_budget_behaviour_counterexample :
  find_near_matches_substitutions_linear_programming Nat.eq_dec [1] [1] (-1)%Z
  = Ok [] /\
  find_near_matches_substitutions_ngrams Nat.eq_dec [1] [1] (-1)%Z
  = Err ZeroDivisionError /\
  has_near_match_substitutions_ngrams Nat.eq_dec [1] [1] (-1)%Z
  = Err ZeroDivisionError /\
  find_near_matches_substitutions_ngrams Nat.eq_dec [1] [1] (-2)%Z = Ok [] /\
  has_near_match_substitutions_ngrams Nat.eq_dec [1] [1] (-2)%Z = Ok false.
Proof. vm_compute. repeat split. Qed.

(** With an empty subsequence and budget 1 the n-gram entry points fail
    with [BudgetExceedsLength], not [EmptySubsequence]. *)
Lemma empty_subsequence_errors_counterexample :
  find_near_matches_substitutions_ngrams Nat.eq_dec [] [1;2] 1%Z
  = Err BudgetExceedsLength /\
  has_near_match_substitutions_ngrams Nat.eq_dec [] [1;2] 1%Z
  = Err BudgetExceedsLength.
Proof. vm_compute. split; reflexivity. Qed.

Lemma returned_matches_invariant_witness :
  [1;2;3;4;5;6] <> [] /\ (0 <= 1)%Z /\
  (exists ms,
     find_near_matches_substitutions Nat.eq_dec [1;2;3;4;5;6]
       [0;1;2;9;4;5;6;7] 1%Z = Ok ms /\
     forall m, In m ms -> match_invariant Nat.eq_dec [1;2;3;4;5;6]
                            [0;1;2;9;4;5;6;7] 1%Z m) /\
  (exists ms,
     find_near_matches_substitutions_linear_programming Nat.eq_dec
       [1;2;3;4;5;6] [0;1;2;9;4;5;6;7] 1%Z = Ok ms /\
     forall m, In m ms -> match_invariant Nat.eq_dec [1;2;3;4;5;6]
                            [0;1;2;9;4;5;6;7] 1%Z m) /\
  ((1 < Z.of_nat (length [1;2;3;4;5;6]))%Z ->
   (exists ms,
      find_near_matches_substitutions_ngrams_raw Nat.eq_dec
        [1;2;3;4;5;6] [0;1;2;9;4;5;6;7] 1%Z = Ok ms /\
      forall m, In m ms -> match_invariant Nat.eq_dec [1;2;3;4;5;6]
                             [0;1;2;9;4;5;6;7] 1%Z m) /\
   (exists ms,
      find_near_matches_substitutions_ngrams Nat.eq_dec
        [1;2;3;4;5;6] [0;1;2;9;4;5;6;7] 1%Z = Ok ms /\
      forall m, In m ms -> match_invariant Nat.eq_dec [1;2;3;4;5;6]
                             [0;1;2;9;4;5;6;7] 1%Z m)).
Proof.
  split; [discriminate|]. split; [lia|].
  apply (returned_matches_invariant nat Nat.eq_dec); [discriminate|lia].
Defined.

Lemma ngrams_unique_sorted_first_witness :
  (0 <= 1)%Z /\ (1 < Z.of_nat (length [1;2;3;4;5;6]))%Z /\
  exists raw out,
    find_near_matches_substitutions_ngrams_raw Nat.eq_dec [1;2;3;4;5;6]
      [0;1;2;9;4;5;6;7] 1%Z = Ok raw /\
    find_near_matches_substitutions_ngrams Nat.eq_dec [1;2;3;4;5;6]
      [0;1;2;9;4;5;6;7] 1%Z = Ok out /\
    NoDup (map start out) /\
    Sorted (fun a b => start a < start b) out /\
    (forall s, find (fun m => start m =? s) out
               = find (fun m => start m =? s) raw) /\
    (forall m1 m2, In m1 raw -> In m2 raw -> start m1 = start m2 -> m1 = m2).
Proof.
  split; [lia|]. split; [simpl; lia|].
  apply (ngrams_unique_sorted_first nat Nat.eq_dec); simpl; lia.
Defined.

Lemma has_ngrams_iff_nonempty_witness :
  (0 <= 1)%Z /\ (1 < Z.of_nat (length [1;2;3;4;5;6]))%Z /\
  exists b raw out,
    has_near_match_substitutions_ngrams Nat.eq_dec [1;2;3;4;5;6]
      [0;1;2;9;4;5;6;7] 1%Z = Ok b /\
    find_near_matches_substitutions_ngrams_raw Nat.eq_dec [1;2;3;4;5;6]
      [0;1;2;9;4;5;6;7] 1%Z = Ok raw /\
    find_near_matches_substitutions_ngrams Nat.eq_dec [1;2;3;4;5;6]
      [0;1;2;9;4;5;6;7] 1%Z = Ok out /\
    (b = true <-> raw <> []) /\
    (b = true <-> valid_starts Nat.eq_dec [1;2;3;4;5;6]
                    [0;1;2;9;4;5;6;7] 1%Z <> []) /\
    (b = true <-> out <> []).
Proof.
  split; [lia|]. split; [simpl; lia|].
  apply (has_ngrams_iff_nonempty nat Nat.eq_dec); simpl; lia.
Defined.

Lemma large_budget_all_windows_witness :
  [1;2] <> [] /\ length [1;2] <= length [3;4;5] /\
  (Z.of_nat (length [1;2]) <= 2)%Z /\
  find_near_matches_substitutions Nat.eq_dec [1;2] [3;4;5] 2%Z
  = find_near_matches_substitutions_linear_programming Nat.eq_dec
      [1;2] [3;4;5] 2%Z /\
  exists ms,
    find_near_matches_substitutions Nat.eq_dec [1;2] [3;4;5] 2%Z = Ok ms /\
    map start ms = seq 0 (length [3;4;5] - length [1;2] + 1).
Proof.
  split; [discriminate|]. split; [simpl; lia|]. split; [simpl; lia|].
  apply (large_budget_all_windows nat Nat.eq_dec); [discriminate|simpl; lia|simpl; lia].
Defined.

Lemma short_sequence_no_matches_witness :
  [1;2;3] <> [] /\ length [1;2] < length [1;2;3] /\
  ((0 <= 1)%Z ->
   find_near_matches_substitutions Nat.eq_dec [1;2;3] [1;2] 1%Z = Ok []) /\
  find_near_matches_substitutions_linear_programming Nat.eq_dec
    [1;2;3] [1;2] 1%Z = Ok [] /\
  ((1 < Z.of_nat (length [1;2;3]))%Z -> (1 <> -1)%Z ->
   find_near_matches_substitutions_ngrams Nat.eq_dec [1;2;3] [1;2] 1%Z
   = Ok [] /\
   has_near_match_substitutions_ngrams Nat.eq_dec [1;2;3] [1;2] 1%Z
   = Ok false).
Proof.
  split; [discriminate|]. split; [simpl; lia|].
  apply (short_sequence_no_matches nat Nat.eq_dec); [discriminate|simpl; lia].
Defined.

(** A budget of [-1] is below [len(subsequence)], yet the n-gram entry
    points divide by zero on a sequence shorter than the subsequence. *)
Lemma short_sequence_no_matches_counterexample :
  [1] <> [] /\ length (@nil nat) < length [1] /\
  (-1 < Z.of_nat (length [1]))%Z /\
  find_near_matches_substitutions_ngrams Nat.eq_dec [1] [] (-1)%Z
  = Err ZeroDivisionError /\
  has_near_match_substitutions_ngrams Nat.eq_dec [1] [] (-1)%Z
  = Err ZeroDivisionError.
Proof.
  split; [discriminate|]. split; [simpl; lia|]. split; [simpl; lia|].
  vm_compute. split; reflexivity.
Qed.

(** * Further properties of the matchers *)

(** ** Sorted lists of matches *)

Lemma StronglySorted_seq a n : StronglySorted lt (seq a n).
Proof.
  revert a; induction n as [|n IH]; intros a; simpl; constructor; auto.
  apply Forall_forall. intros x Hx. apply in_seq in Hx. lia.
Qed.

Lemma StronglySorted_filter {T : Type} (R : T -> T -> Prop) (f : T -> bool) l :
  StronglySorted R l -> StronglySorted R (filter f l).
Proof.
  induction 1 as [|a l Hs IH Hf]; simpl; [constructor|].
  destruct (f a); [|exact IH]. constructor; [exact IH|].
  apply Forall_forall. intros x Hx. apply filter_In in Hx as [Hx _].
  exact (proj1 (Forall_forall _ _) Hf x Hx).
Qed.

Lemma StronglySorted_map {T U : Type} (R : T -> T -> Prop) (R' : U -> U -> Prop)
    (f : T -> U) l :
  (forall a b, R a b -> R' (f a) (f b)) ->
  StronglySorted R l -> StronglySorted R' (map f l).
Proof.
  intros HR. induction 1 as [|a l Hs IH Hf]; simpl; constructor; [exact IH|].
  apply Forall_forall. intros y Hy. apply in_map_iff in Hy as (x & <- & Hx).
  apply HR. exact (proj1 (Forall_forall _ _) Hf x Hx).
Qed.

(** Two lists of matches sorted by strictly increasing start with the same
    members are equal. *)
Lemma strict_sorted_eq (l1 l2 : list Match) :
  StronglySorted (fun a b => start a < start b) l1 ->
  StronglySorted (fun a b => start a < start b) l2 ->
  (forall m, In m l1 <-> In m l2) -> l1 = l2.
Proof.
  revert l2; induction l1 as [|a l1 IH]; intros l2 H1 H2 Hm.
  - symmetry. apply nil_of_no_member. intros x Hx. now apply Hm in Hx.
  - destruct l2 as [|b l2]; [exfalso; apply (Hm a); now left|].
    apply StronglySorted_inv in H1 as [H1 F1], H2 as [H2 F2].
    rewrite Forall_forall in F1, F2.
    assert (Hab : a = b).
    { destruct (proj1 (Hm a) (or_introl eq_refl)) as [E|Ha]; [now symmetry|].
      destruct (proj2 (Hm b) (or_introl eq_refl)) as [E|Hb]; [exact E|].
      specialize (F1 b Hb). specialize (F2 a Ha). lia. }
    subst b. f_equal. apply IH; auto. intros m. split; intros Hin.
    + destruct (proj1 (Hm m) (or_intror Hin)) as [<-|H]; [|exact H].
      specialize (F1 a Hin). lia.
    + destruct (proj2 (Hm m) (or_intror Hin)) as [<-|H]; [|exact H].
      specialize (F2 a Hin). lia.
Qed.

Lemma filter_map_comm {T U : Type} (f : T -> U) (r : U -> bool) l :
  filter r (map f l) = map f (filter (fun x => r (f x)) l).
Proof. induction l as [|a l IH]; simpl; auto. destruct (r (f a)); simpl; congruence. Qed.

Lemma filter_filter_and {T : Type} (p q : T -> bool) l :
  filter q (filter p l) = filter (fun x => p x && q x) l.
Proof.
  induction l as [|a l IH]; simpl; auto.
  destruct (p a); simpl; [destruct (q a)|]; simpl; congruence.
Qed.

Lemma seq_add_shift a b n : seq (a + b) n = map (fun x => a + x) (seq b n).
Proof.
  revert b; induction n as [|n IH]; intros b; simpl; auto.
  f_equal. replace (S (a + b)) with (a + S b) by lia. apply IH.
Qed.

(** ** Sorting by start: a stable sort *)

Lemma insert_by_start_sorted_le m ms :
  Sorted (fun a b => start a <= start b) ms ->
  Sorted (fun a b => start a <= start b) (insert_by_start m ms).
Proof.
  induction ms as [|x ms IH]; intros Hs; simpl; [repeat constructor|].
  destruct (Nat.leb_spec (start m) (start x)).
  - constructor; [exact Hs|]. constructor. lia.
  - apply Sorted_inv in Hs as [Hs Hhd].
    constructor; [now apply IH|].
    destruct ms as [|y ms]; simpl.
    + constructor. lia.
    + destruct (start m <=? start y); constructor; [lia|].
      now inversion Hhd.
Qed.

Lemma sort_by_start_sorted_le ms :
  Sorted (fun a b => start a <= start b) (sort_by_start ms).
Proof.
  induction ms as [|m ms IH]; simpl; [constructor|].
  now apply insert_by_start_sorted_le.
Qed.

Lemma insert_by_start_filter m ms s :
  Sorted (fun a b => start a <= start b) ms ->
  filter (fun x => start x =? s) (insert_by_start m ms)
  = filter (fun x => start x =? s) (m :: ms).
Proof.
  induction ms as [|x ms IH]; intros Hs; simpl; [reflexivity|].
  destruct (Nat.leb_spec (start m) (start x)); [reflexivity|].
  apply Sorted_inv in Hs as [Hs _].
  cbn [filter]. rewrite IH by exact Hs. cbn [filter].
  destruct (Nat.eqb_spec (start m) s), (Nat.eqb_spec (start x) s);
    auto; lia.
Qed.

Lemma sort_by_start_filter ms s :
  filter (fun x => start x =? s) (sort_by_start ms)
  = filter (fun x => start x =? s) ms.
Proof.
  induction ms as [|m ms IH]; simpl; [reflexivity|].
  rewrite insert_by_start_filter by apply sort_by_start_sorted_le.
  cbn [filter]. now rewrite IH.
Qed.

(** ** The deduplicated n-gram output *)

Lemma dedup_by_start_nonempty m ms : dedup_by_start (m :: ms) <> [].
Proof.
  destruct (dedup_by_start_spec (m :: ms)) as (_ & Hfind & _).
  specialize (Hfind (start m)). simpl in Hfind.
  rewrite Nat.eqb_refl in Hfind. intros E. rewrite E in Hfind.
  discriminate.
Qed.

Lemma sort_by_start_nil ms : sort_by_start ms = [] -> ms = [].
Proof.
  intros E. apply Permutation_nil. rewrite <- E. apply Permutation_sym, sort_by_start_perm.
Qed.

Lemma sort_dedup_sorted ms :
  NoDup (map start (sort_by_start (dedup_by_start ms))) /\
  Sorted (fun a b => start a < start b) (sort_by_start (dedup_by_start ms)).
Proof.
  destruct (dedup_by_start_spec ms) as (Hnd & _ & _). split.
  - apply (Permutation_NoDup (Permutation_map start (sort_by_start_perm _))).
    exact Hnd.
  - now apply sort_by_start_sorted.
Qed.

Section MoreMatchers.

Variable A : Type.
Variable eq_dec : forall x y : A, {x = y} + {x <> y}.

Lemma opt_eqb_some c o : opt_eqb eq_dec (Some c) o = true <-> o = Some c.
Proof.
  destruct o as [x|]; simpl; [|split; discriminate].
  destruct (eq_dec c x); split; congruence.
Qed.

Lemma window_app_prefix (sequence rest : list A) s n :
  s + n <= length sequence ->
  window (sequence ++ rest) s n = window sequence s n.
Proof.
  intros H. unfold window, slice. replace (s + n - s) with n by lia.
  rewrite skipn_app, firstn_app, length_skipn.
  replace (n - (length sequence - s)) with 0 by lia.
  simpl. apply app_nil_r.
Qed.

Lemma window_app_shift (prefix sequence : list A) s n :
  window (prefix ++ sequence) (length prefix + s) n = window sequence s n.
Proof.
  unfold window, slice.
  replace (length prefix + s + n - (length prefix + s)) with n by lia.
  replace (s + n - s) with n by lia.
  rewrite skipn_app, skipn_all2 by lia.
  now replace (length prefix + s - length prefix) with s by lia.
Qed.

Lemma valid_starts_sorted (subsequence sequence : list A) K :
  StronglySorted lt (valid_starts eq_dec subsequence sequence K).
Proof. apply StronglySorted_filter, StronglySorted_seq. Qed.

Lemma reference_matches_sorted (subsequence sequence : list A) K :
  StronglySorted (fun a b => start a < start b)
    (map (reference_match eq_dec subsequence sequence)
         (valid_starts eq_dec subsequence sequence K)).
Proof.
  apply (StronglySorted_map lt); [|apply valid_starts_sorted].
  intros a b H. exact H.
Qed.

Lemma ngrams_eq_reference (subsequence sequence : list A) K :
  (0 <= K)%Z -> (K < Z.of_nat (length subsequence))%Z ->
  find_near_matches_substitutions_ngrams eq_dec subsequence sequence K
  = Ok (map (reference_match eq_dec subsequence sequence)
            (valid_starts eq_dec subsequence sequence K)).
Proof.
  intros HK HKL.
  destruct (ngrams_spec A eq_dec subsequence sequence K HK HKL)
    as (raw & out & _ & Eo & Hraw & _ & Hsorted & _ & Hsub).
  destruct (ngrams_members A eq_dec subsequence sequence K HK HKL)
    as (raw' & out' & Er' & Eo' & Hraw' & Hout').
  rewrite Eo in Eo'. injection Eo' as <-.
  rewrite Eo. f_equal. apply strict_sorted_eq.
  - apply Sorted_StronglySorted; [|exact Hsorted].
    intros a b c; lia.
  - apply reference_matches_sorted.
  - intros m. rewrite Hout', in_map_iff. rewrite Hraw'.
    split; intros (s & H1 & H2); exists s; split; auto.
Qed.

End MoreMatchers.

Section ExtraProperties.

Variable A : Type.
Variable eq_dec : forall x y : A, {x = y} + {x <> y}.

(** The ring-counter matcher never fails on a non-empty subsequence (no
    index of the deque is ever out of range) and yields its matches in
    strictly increasing order of start. *)
Theorem linear_total_sorted (subsequence sequence : list A) K :
  subsequence <> [] ->
  exists ms,
    find_near_matches_substitutions_linear_programming eq_dec
      subsequence sequence K = Ok ms /\
    Sorted (fun a b => start a < start b) ms.
Proof.
  intros Hne. eexists. split; [now apply linear_programming_spec|].
  apply StronglySorted_Sorted, reference_matches_sorted.
Qed.

(** Lowering the budget of the ring-counter matcher from [K'] to [K] keeps
    exactly the matches of budget [K'] whose [dist] is at most [K]. *)
Theorem linear_budget_filter (subsequence sequence : list A) K K' :
  subsequence <> [] -> (K <= K')%Z ->
  exists ms ms',
    find_near_matches_substitutions_linear_programming eq_dec
      subsequence sequence K = Ok ms /\
    find_near_matches_substitutions_linear_programming eq_dec
      subsequence sequence K' = Ok ms' /\
    ms = filter (fun m => dist m <=? K)%Z ms'.
Proof.
  intros Hne HK. do 2 eexists.
  split; [now apply linear_programming_spec|].
  split; [now apply linear_programming_spec|].
  rewrite filter_map_comm. f_equal. unfold valid_starts.
  rewrite filter_filter_and. apply filter_ext. intros s.
  unfold reference_match; cbn [dist].
  destruct (Z.leb_spec (Z.of_nat (mismatches eq_dec subsequence
              (window sequence s (length subsequence)))) K),
           (Z.leb_spec (Z.of_nat (mismatches eq_dec subsequence
              (window sequence s (length subsequence)))) K'); auto; lia.
Qed.

(** The ring-counter matcher is a stream: its output on a sequence is a
    prefix of its output on any extension of that sequence. *)
Theorem linear_prefix_stream (subsequence sequence rest : list A) K :
  subsequence <> [] ->
  exists ms ms' more,
    find_near_matches_substitutions_linear_programming eq_dec
      subsequence sequence K = Ok ms /\
    find_near_matches_substitutions_linear_programming eq_dec
      subsequence (sequence ++ rest) K = Ok ms' /\
    ms' = ms ++ more.
Proof.
  intros Hne.
  assert (HL : 1 <= length subsequence)
    by (destruct subsequence; [congruence|simpl; lia]).
  set (L := length subsequence).
  set (a := length sequence + 1 - L).
  set (b := length (sequence ++ rest) + 1 - L - a).
  exists (map (reference_match eq_dec subsequence sequence)
              (valid_starts eq_dec subsequence sequence K)).
  exists (map (reference_match eq_dec subsequence (sequence ++ rest))
              (valid_starts eq_dec subsequence (sequence ++ rest) K)).
  exists (map (reference_match eq_dec subsequence (sequence ++ rest))
              (filter (fun i => Z.of_nat (mismatches eq_dec subsequence
                                 (window (sequence ++ rest) i L)) <=? K)%Z
                      (seq a b))).
  split; [now apply linear_programming_spec|].
  split; [now apply linear_programming_spec|].
  unfold valid_starts. fold L.
  replace (length (sequence ++ rest) + 1 - L) with (a + b)
    by (unfold a, b; rewrite length_app; lia).
  rewrite seq_app, filter_app, map_app. f_equal.
  assert (Hin : forall i, In i (seq 0 a) -> i + L <= length sequence)
    by (intros i Hi; apply in_seq in Hi; unfold a in Hi; lia).
  rewrite (filter_ext_in _ (fun i => Z.of_nat (mismatches eq_dec subsequence
                                      (window sequence i L)) <=? K)%Z).
  - apply map_ext_in. intros i Hi. apply filter_In in Hi as [Hi _].
    unfold reference_match. fold L. now rewrite window_app_prefix by auto.
  - intros i Hi. now rewrite window_app_prefix by auto.
Qed.

(** Prepending a prefix [P] to the sequence shifts every match of the
    ring-counter matcher by [len(P)]; the shifted matches come last, after
    the matches that start inside [P]. *)
Theorem linear_prefix_shift (subsequence prefix sequence : list A) K :
  subsequence <> [] ->
  exists ms ms' front,
    find_near_matches_substitutions_linear_programming eq_dec
      subsequence sequence K = Ok ms /\
    find_near_matches_substitutions_linear_programming eq_dec
      subsequence (prefix ++ sequence) K = Ok ms' /\
    ms' = front ++ map (fun m => mkMatch (start m + length prefix)
                                         (end_ m + length prefix) (dist m)) ms /\
    (forall m, In m front -> start m < length prefix).
Proof.
  intros Hne.
  assert (HL : 1 <= length subsequence)
    by (destruct subsequence; [congruence|simpl; lia]).
  set (L := length subsequence).
  set (P := length prefix).
  set (p := fun (sq : list A) i =>
              (Z.of_nat (mismatches eq_dec subsequence (window sq i L)) <=? K)%Z).
  exists (map (reference_match eq_dec subsequence sequence)
              (valid_starts eq_dec subsequence sequence K)).
  exists (map (reference_match eq_dec subsequence (prefix ++ sequence))
              (valid_starts eq_dec subsequence (prefix ++ sequence) K)).
  destruct (Nat.le_gt_cases L (length sequence + 1)) as [Hge|Hlt].
  - exists (map (reference_match eq_dec subsequence (prefix ++ sequence))
                (filter (p (prefix ++ sequence)) (seq 0 P))).
    split; [now apply linear_programming_spec|].
    split; [now apply linear_programming_spec|]. split.
    + unfold valid_starts. fold L.
      replace (length (prefix ++ sequence) + 1 - L)
        with (P + (length sequence + 1 - L)) by (rewrite length_app; lia).
      rewrite seq_app, filter_app, map_app. f_equal.
      replace (0 + P) with (P + 0) by lia.
      rewrite seq_add_shift, filter_map_comm, map_map, map_map.
      rewrite (filter_ext (fun x => p (prefix ++ sequence) (P + x))
                          (p sequence)).
      * apply map_ext. intros i. unfold reference_match. fold L.
        unfold P. rewrite window_app_shift. f_equal; simpl; lia.
      * intros i. unfold p. unfold P. now rewrite window_app_shift.
    + intros m Hm. apply in_map_iff in Hm as (i & <- & Hi).
      apply filter_In in Hi as [Hi _]. apply in_seq in Hi. simpl. lia.
  - exists (map (reference_match eq_dec subsequence (prefix ++ sequence))
                (valid_starts eq_dec subsequence (prefix ++ sequence) K)).
    split; [now apply linear_programming_spec|].
    split; [now apply linear_programming_spec|].
    rewrite (valid_starts_short A eq_dec subsequence sequence K) by lia.
    split; [simpl; now rewrite app_nil_r|].
    intros m Hm. apply in_map_iff in Hm as (i & <- & Hi).
    apply valid_starts_In in Hi as [Hi _]. rewrite length_app in Hi.
    simpl. fold L in Hi. lia.
Qed.

(** [char_indexes_in_subsequence[c]] lists, in increasing order, exactly
    the positions of [c] in the subsequence. *)
Theorem char_indexes_positions (subsequence : list A) c :
  char_indexes eq_dec subsequence c
  = filter (fun j => opt_eqb eq_dec (Some c) (nth_error subsequence j))
           (seq 0 (length subsequence)) /\
  (forall j, In j (char_indexes eq_dec subsequence c)
             <-> nth_error subsequence j = Some c).
Proof.
  assert (E : char_indexes eq_dec subsequence c
              = filter (fun j => opt_eqb eq_dec (Some c) (nth_error subsequence j))
                       (seq 0 (length subsequence))).
  { unfold char_indexes, enumerate.
    rewrite (char_indexes_fold A eq_dec subsequence 0 (fun _ => []) c).
    simpl. apply filter_ext. intros j. now rewrite Nat.sub_0_r. }
  split; [exact E|]. intros j. rewrite E, filter_In, in_seq, opt_eqb_some.
  split; [tauto|]. intros H. split; [|exact H].
  assert (j < length subsequence) by (apply nth_error_Some; congruence). lia.
Qed.

(** After the first loop over the first [len(subsequence) - 1] items (or
    all of a shorter sequence, [n] items), the deque holds [n + 1]
    counters, and counter [p] is the number of positions where the
    alignment starting at [n - p] agrees with the items read so far. *)
Theorem warmup_ring_invariant (subsequence sequence : list A) :
  subsequence <> [] ->
  exists d,
    fold_m (lp_warmup_step (length subsequence)
              (char_indexes eq_dec subsequence))
           (firstn (length subsequence - 1) (enumerate sequence))
           (firstn (length subsequence) [0]) = Ok d /\
    length d = Nat.min (length subsequence - 1) (length sequence) + 1 /\
    forall p, p <= Nat.min (length subsequence - 1) (length sequence) ->
      nth p d 0
      = agree_upto eq_dec subsequence sequence
          (Nat.min (length subsequence - 1) (length sequence) - p)
          (Nat.min (length subsequence - 1) (length sequence)).
Proof.
  intros Hne.
  assert (HL : 1 <= length subsequence)
    by (destruct subsequence; [congruence|simpl; lia]).
  set (L := length subsequence) in *.
  unfold enumerate. rewrite firstn_enumerate_from.
  replace (firstn L [0]) with [0]
    by (destruct L as [|[|L']]; simpl; [lia|reflexivity|reflexivity]).
  destruct (lp_warmup_ok A eq_dec subsequence sequence
              (firstn (L - 1) sequence) 0 [0]) as (d & E1 & Hl1 & Hd1).
  { intros j Hj. rewrite length_firstn in Hj.
    rewrite nth_error_firstn.
    now replace (j <? L - 1) with true by (symmetry; apply Nat.ltb_lt; lia). }
  { rewrite length_firstn. fold L. lia. }
  { reflexivity. }
  { intros p Hp. replace p with 0 by lia. simpl.
    symmetry. apply agree_upto_refl. }
  rewrite length_firstn in Hl1, Hd1.
  exists d. split; [exact E1|]. split; [exact Hl1|]. exact Hd1.
Qed.

(** The check of one exact fragment hit: for a fragment [f, f + g) of the
    subsequence found at index [h] of the sequence, with the whole window
    inside the sequence, the n-gram matcher yields the match of the window
    starting at [h - f] with its true mismatch count exactly when that
    count is at most [K], and yields nothing otherwise. *)
Theorem ngram_hit_verifies (subsequence sequence : list A) K f g h :
  (0 <= K)%Z -> f + g <= length subsequence -> f <= h ->
  h - f + length subsequence <= length sequence ->
  slice sequence h (h + g) = slice subsequence f (f + g) ->
  ngram_hit eq_dec subsequence sequence K f g h =
  if (Z.of_nat (mismatches eq_dec subsequence
                  (window sequence (h - f) (length subsequence))) <=? K)%Z
  then Some (mkMatch (h - f) (h - f + length subsequence)
               (Z.of_nat (mismatches eq_dec subsequence
                  (window sequence (h - f) (length subsequence)))))
  else None.
Proof.
  intros HK Hfg Hfh Hwin Hfrag.
  rewrite (ngram_hit_spec A eq_dec subsequence sequence K f g h HK Hfg Hfh
             Hwin Hfrag).
  reflexivity.
Qed.

(** The n-gram entry point and the n-gram existence test fail together:
    with the same error, or both succeed and the test answers [True]
    exactly when the list of matches is non-empty. *)
Theorem has_agrees_with_ngrams (subsequence sequence : list A) K :
  has_near_match_substitutions_ngrams eq_dec subsequence sequence K =
  match find_near_matches_substitutions_ngrams eq_dec subsequence sequence K with
  | Ok out => Ok (match out with [] => false | _ :: _ => true end)
  | Err e => Err e
  end.
Proof.
  unfold has_near_match_substitutions_ngrams,
         find_near_matches_substitutions_ngrams.
  destruct (find_near_matches_substitutions_ngrams_raw eq_dec
              subsequence sequence K) as [raw|e]; cbn [bind]; [|reflexivity].
  destruct raw as [|m raw]; [reflexivity|].
  destruct (sort_by_start (dedup_by_start (m :: raw))) eqn:E; [|reflexivity].
  exfalso. apply sort_by_start_nil in E. exact (dedup_by_start_nonempty m raw E).
Qed.

(** Whenever the n-gram entry point returns, its matches have pairwise
    distinct starts and are sorted by strictly increasing start, whatever
    the budget. *)
Theorem ngrams_output_sorted (subsequence sequence : list A) K out :
  find_near_matches_substitutions_ngrams eq_dec subsequence sequence K = Ok out ->
  NoDup (map start out) /\ Sorted (fun a b => start a < start b) out.
Proof.
  unfold find_near_matches_substitutions_ngrams.
  destruct (find_near_matches_substitutions_ngrams_raw eq_dec
              subsequence sequence K) as [raw|e]; cbn [bind];
    [|discriminate].
  intros E. injection E as <-. apply sort_dedup_sorted.
Qed.

(** For a budget [K >= 0] the n-gram entry point and the existence test
    raise [BudgetExceedsLength] exactly when [len(subsequence) <= K], and
    return normally otherwise. *)
Theorem ngrams_budget_error (subsequence sequence : list A) K :
  (0 <= K)%Z ->
  ((Z.of_nat (length subsequence) <= K)%Z ->
   find_near_matches_substitutions_ngrams eq_dec subsequence sequence K
   = Err BudgetExceedsLength /\
   has_near_match_substitutions_ngrams eq_dec subsequence sequence K
   = Err BudgetExceedsLength) /\
  ((K < Z.of_nat (length subsequence))%Z ->
   (exists out, find_near_matches_substitutions_ngrams eq_dec
                  subsequence sequence K = Ok out) /\
   (exists b, has_near_match_substitutions_ngrams eq_dec
                subsequence sequence K = Ok b)).
Proof.
  intros HK.
  unfold has_near_match_substitutions_ngrams,
         find_near_matches_substitutions_ngrams,
         find_near_matches_substitutions_ngrams_raw.
  rewrite ngram_length_ok by exact HK. cbn [bind].
  split.
  - intros Hle.
    rewrite Z.div_small by lia. split; reflexivity.
  - intros Hlt.
    assert (Hg : (1 <= Z.of_nat (length subsequence) / (K + 1))%Z)
      by (apply Z.div_le_lower_bound; lia).
    replace (Z.of_nat (length subsequence) / (K + 1) =? 0)%Z with false
      by (symmetry; apply Z.eqb_neq; lia).
    cbn [bind]. split; [eexists; reflexivity|].
    match goal with
    | |- exists b, match ?l with [] => _ | _ :: _ => _ end = _ =>
        destruct l; eexists; reflexivity
    end.
Qed.

(** The deduplication loop of the n-gram entry point, on any list of
    matches: the starts it keeps are pairwise distinct, every start of the
    input is kept with its first match, and it adds no match. *)
Theorem dedup_keeps_first (ms : list Match) :
  NoDup (map start (dedup_by_start ms)) /\
  (forall s, find (fun m => start m =? s) (dedup_by_start ms)
             = find (fun m => start m =? s) ms) /\
  (forall m, In m (dedup_by_start ms) -> In m ms).
Proof.
  destruct (dedup_by_start_spec ms) as (H1 & H2 & H3).
  split; [exact H1|]. split; [exact H2|]. exact H3.
Qed.

(** [sorted(matches, key=lambda match: match.start)] permutes its input,
    orders it by non-decreasing start, and is stable: the matches with a
    given start keep their relative order. *)
Theorem sort_by_start_stable (ms : list Match) :
  Permutation ms (sort_by_start ms) /\
  Sorted (fun a b => start a <= start b) (sort_by_start ms) /\
  (forall s, filter (fun m => start m =? s) (sort_by_start ms)
             = filter (fun m => start m =? s) ms).
Proof.
  split; [apply sort_by_start_perm|].
  split; [apply sort_by_start_sorted_le|].
  apply sort_by_start_filter.
Qed.

(** For [0 <= K < len(subsequence)] the n-gram entry point returns exactly
    the list of the ring-counter matcher, order included. *)
Theorem ngrams_equals_linear (subsequence sequence : list A) K :
  (0 <= K)%Z -> (K < Z.of_nat (length subsequence))%Z ->
  find_near_matches_substitutions_ngrams eq_dec subsequence sequence K
  = find_near_matches_substitutions_linear_programming eq_dec
      subsequence sequence K.
Proof.
  intros HK HKL.
  assert (Hne : subsequence <> [])
    by (intros E; subst subsequence; simpl in HKL; lia).
  rewrite (linear_programming_spec A eq_dec _ _ _ Hne).
  now apply ngrams_eq_reference.
Qed.

(** For a non-empty subsequence and [K >= 0] the dispatcher returns exactly
    the list of the ring-counter matcher, order included, whichever path
    it takes. *)
Theorem dispatcher_equals_linear (subsequence sequence : list A) K :
  subsequence <> [] -> (0 <= K)%Z ->
  find_near_matches_substitutions eq_dec subsequence sequence K
  = find_near_matches_substitutions_linear_programming eq_dec
      subsequence sequence K.
Proof.
  intros Hne HK.
  rewrite (linear_programming_spec A eq_dec _ _ _ Hne).
  rewrite (dispatcher_unfold A eq_dec _ _ _ Hne).
  replace (K <? 0)%Z with false by (symmetry; apply Z.ltb_ge; lia).
  destruct (Z.eqb_spec K 0) as [HK0|HK0].
  - subst K. f_equal. apply strict_sorted_eq.
    + apply (StronglySorted_map lt); [intros a b H; exact H|].
      apply StronglySorted_filter, StronglySorted_seq.
    + apply reference_matches_sorted.
    + intros m. rewrite !in_map_iff. split.
      * intros (s & <- & Hs). apply exact_path_spec in Hs; [|exact Hne].
        exists s. split; [|exact Hs].
        symmetry. now apply exact_match_reference.
      * intros (s & <- & Hs). exists s.
        split; [now apply exact_match_reference|].
        now apply exact_path_spec.
  - destruct (Z.leb_spec 3 (Z.of_nat (length subsequence) / (K + 1)))
      as [H3|H3].
    + apply ngrams_eq_reference; [exact HK|].
      exact (ngram_route_budget A subsequence K HK H3).
    + now apply linear_programming_spec.
Qed.

End ExtraProperties.

(** ** Concrete instances of the further properties *)

Lemma linear_total_sorted_witness :
  [1;2;3] <> [] /\
  exists ms,
    find_near_matches_substitutions_linear_programming Nat.eq_dec
      [1;2;3] [1;5;3;1;2;3;4] 1%Z = Ok ms /\
    Sorted (fun a b => start a < start b) ms.
Proof.
  split; [discriminate|].
  apply (linear_total_sorted nat Nat.eq_dec); discriminate.
Defined.

Lemma linear_budget_filter_witness :
  [1;2;3] <> [] /\ (0 <= 1)%Z /\
  exists ms ms',
    find_near_matches_substitutions_linear_programming Nat.eq_dec
      [1;2;3] [1;5;3;1;2;3;4] 0%Z = Ok ms /\
    find_near_matches_substitutions_linear_programming Nat.eq_dec
      [1;2;3] [1;5;3;1;2;3;4] 1%Z = Ok ms' /\
    ms = filter (fun m => dist m <=? 0)%Z ms'.
Proof.
  split; [discriminate|]. split; [lia|].
  apply (linear_budget_filter nat Nat.eq_dec); [discriminate|lia].
Defined.

Lemma linear_prefix_stream_witness :
  [1;2;3] <> [] /\
  exists ms ms' more,
    find_near_matches_substitutions_linear_programming Nat.eq_dec
      [1;2;3] [1;5;3;1] 1%Z = Ok ms /\
    find_near_matches_substitutions_linear_programming Nat.eq_dec
      [1;2;3] ([1;5;3;1] ++ [2;3;4]) 1%Z = Ok ms' /\
    ms' = ms ++ more.
Proof.
  split; [discriminate|].
  apply (linear_prefix_stream nat Nat.eq_dec); discriminate.
Defined.

Lemma linear_prefix_shift_witness :
  [1;2;3] <> [] /\
  exists ms ms' front,
    find_near_matches_substitutions_linear_programming Nat.eq_dec
      [1;2;3] [1;2;3;4] 1%Z = Ok ms /\
    find_near_matches_substitutions_linear_programming Nat.eq_dec
      [1;2;3] ([1;5;3] ++ [1;2;3;4]) 1%Z = Ok ms' /\
    ms' = front ++ map (fun m => mkMatch (start m + length [1;5;3])
                                         (end_ m + length [1;5;3]) (dist m)) ms /\
    (forall m, In m front -> start m < length [1;5;3]).
Proof.
  split; [discriminate|].
  apply (linear_prefix_shift nat Nat.eq_dec); discriminate.
Defined.

Lemma warmup_ring_invariant_witness :
  [1;2;3] <> [] /\
  exists d,
    fold_m (lp_warmup_step (length [1;2;3]) (char_indexes Nat.eq_dec [1;2;3]))
           (firstn (length [1;2;3] - 1) (enumerate [1;5;3;1;2;3;4]))
           (firstn (length [1;2;3]) [0]) = Ok d /\
    length d = Nat.min (length [1;2;3] - 1) (length [1;5;3;1;2;3;4]) + 1 /\
    forall p, p <= Nat.min (length [1;2;3] - 1) (length [1;5;3;1;2;3;4]) ->
      nth p d 0
      = agree_upto Nat.eq_dec [1;2;3] [1;5;3;1;2;3;4]
          (Nat.min (length [1;2;3] - 1) (length [1;5;3;1;2;3;4]) - p)
          (Nat.min (length [1;2;3] - 1) (length [1;5;3;1;2;3;4])).
Proof.
  split; [discriminate|].
  apply (warmup_ring_invariant nat Nat.eq_dec); discriminate.
Defined.

Lemma ngram_hit_verifies_witness :
  (0 <= 1)%Z /\ 3 + 3 <= length [1;2;3;4;5;6] /\ 3 <= 4 /\
  4 - 3 + length [1;2;3;4;5;6] <= length [0;1;2;9;4;5;6;7] /\
  slice [0;1;2;9;4;5;6;7] 4 (4 + 3) = slice [1;2;3;4;5;6] 3 (3 + 3) /\
  ngram_hit Nat.eq_dec [1;2;3;4;5;6] [0;1;2;9;4;5;6;7] 1%Z 3 3 4 =
  if Z.leb (Z.of_nat (mismatches Nat.eq_dec [1;2;3;4;5;6]
                  (window [0;1;2;9;4;5;6;7] (4 - 3) (length [1;2;3;4;5;6]))))
      1
  then Some (mkMatch (4 - 3) (4 - 3 + length [1;2;3;4;5;6])
               (Z.of_nat (mismatches Nat.eq_dec [1;2;3;4;5;6]
                  (window [0;1;2;9;4;5;6;7] (4 - 3) (length [1;2;3;4;5;6])))))
  else None.
Proof.
  split; [lia|]. split; [simpl; lia|]. split; [lia|]. split; [simpl; lia|].
  split; [reflexivity|].
  apply (ngram_hit_verifies nat Nat.eq_dec); [lia|simpl; lia|lia|simpl; lia|reflexivity].
Defined.

Lemma ngrams_output_sorted_witness :
  find_near_matches_substitutions_ngrams Nat.eq_dec [1;2;3;4;5;6]
    [0;1;2;9;4;5;6;7] 1%Z = Ok [mkMatch 1 7 1] /\
  NoDup (map start [mkMatch 1 7 1]) /\
  Sorted (fun a b => start a < start b) [mkMatch 1 7 1].
Proof.
  split; [vm_compute; reflexivity|].
  apply (ngrams_output_sorted nat Nat.eq_dec [1;2;3;4;5;6]
           [0;1;2;9;4;5;6;7] 1%Z).
  vm_compute. reflexivity.
Defined.

Lemma ngrams_budget_error_witness :
  (0 <= 2)%Z /\
  ((Z.of_nat (length [1;2]%nat) <= 2)%Z ->
   find_near_matches_substitutions_ngrams Nat.eq_dec [1;2] [1;2;3] 2%Z
   = Err BudgetExceedsLength /\
   has_near_match_substitutions_ngrams Nat.eq_dec [1;2] [1;2;3] 2%Z
   = Err BudgetExceedsLength) /\
  ((2 < Z.of_nat (length [1;2]%nat))%Z ->
   (exists out, find_near_matches_substitutions_ngrams Nat.eq_dec
                  [1;2] [1;2;3] 2%Z = Ok out) /\
   (exists b, has_near_match_substitutions_ngrams Nat.eq_dec
                [1;2] [1;2;3] 2%Z = Ok b)).
Proof.
  split; [lia|].
  apply (ngrams_budget_error nat Nat.eq_dec); lia.
Defined.

Lemma ngrams_equals_linear_witness :
  (0 <= 1)%Z /\ (1 < Z.of_nat (length [1;2;3;4;5;6]%nat))%Z /\
  find_near_matches_substitutions_ngrams Nat.eq_dec [1;2;3;4;5;6]
    [0;1;2;9;4;5;6;7] 1%Z
  = find_near_matches_substitutions_linear_programming Nat.eq_dec
      [1;2;3;4;5;6] [0;1;2;9;4;5;6;7] 1%Z.
Proof.
  split; [lia|]. split; [simpl; lia|].
  apply (ngrams_equals_linear nat Nat.eq_dec); simpl; lia.
Defined.

Lemma dispatcher_equals_linear_witness :
  [1;2;3;4;5;6] <> [] /\ (0 <= 1)%Z /\
  find_near_matches_substitutions Nat.eq_dec [1;2;3;4;5;6]
    [0;1;2;9;4;5;6;7] 1%Z
  = find_near_matches_substitutions_linear_programming Nat.eq_dec
      [1;2;3;4;5;6] [0;1;2;9;4;5;6;7] 1%Z.
Proof.
  split; [discriminate|]. split; [lia|].
  apply (dispatcher_equals_linear nat Nat.eq_dec); [discriminate|lia].
Defined.
